(** * animate.py: script parser, clip planner and orchestration loop

    A shallow embedding of [StabilityAnimationGenerator] from
    [src/animate.py]: the line-oriented script parser [_parse_script], the
    per-scene timing computed inside [create_animation], and the
    catch-and-continue loop of [create_animation] over the external image
    service and the external renderer. *)

From Stdlib Require Import List ZArith NArith Lia Bool String Ascii.
Import ListNotations.

Set Implicit Arguments.

(** ** Python strings *)

(** A Python [str] is a sequence of Unicode code points. *)
Module PyStr.

Definition char := N.
Definition str := list char.

(** A string literal of the source, character by character. *)
Definition lit (s : string) : str := map N_of_ascii (list_ascii_of_string s).

(** The characters removed by [str.strip()] without argument
    ([str.isspace]): U+0009..U+000D, U+001C..U+0020, U+0085, U+00A0, U+1680,
    U+2000..U+200A, U+2028, U+2029, U+202F, U+205F, U+3000. *)
Definition isspace (c : char) : bool :=
  ((9 <=? c) && (c <=? 13) || (28 <=? c) && (c <=? 32)
   || (c =? 133) || (c =? 160) || (c =? 5760)
   || (8192 <=? c) && (c <=? 8202)
   || (c =? 8232) || (c =? 8233) || (c =? 8239) || (c =? 8287)
   || (c =? 12288))%N.

(** The line separator used by [split('\n')]. *)
Definition newline : char := 10%N.

Definition is_empty (s : str) : bool :=
  match s with [] => true | _ :: _ => false end.

(** [bool(s)] for a string: true when it is not empty. *)
Definition truthy (s : str) : bool := negb (is_empty s).

Fixpoint lstrip (s : str) : str :=
  match s with
  | [] => []
  | c :: s' => if isspace c then lstrip s' else s
  end.

Fixpoint rstrip (s : str) : str :=
  match s with
  | [] => []
  | c :: s' =>
      let r := rstrip s' in
      if isspace c && is_empty r then [] else c :: r
  end.

(** [s.strip()] *)
Definition strip (s : str) : str := rstrip (lstrip s).

(** [s.startswith(p)] *)
Fixpoint startswith (s p : str) : bool :=
  match p, s with
  | [], _ => true
  | _ :: _, [] => false
  | a :: p', c :: s' => (c =? a)%N && startswith s' p'
  end.

(** [s.split(sep)] for a one-character separator: never the empty list. *)
Fixpoint split (sep : char) (s : str) : list str :=
  match s with
  | [] => [[]]
  | c :: s' =>
      if (c =? sep)%N then [] :: split sep s'
      else match split sep s' with
           | [] => [[c]]
           | l :: ls => (c :: l) :: ls
           end
  end.

(** [a == b] on strings. *)
Fixpoint eqb (a b : str) : bool :=
  match a, b with
  | [], [] => true
  | x :: a', y :: b' => (x =? y)%N && eqb a' b'
  | _, _ => false
  end.

(** [sep.join(ls)] *)
Fixpoint join (sep : str) (ls : list str) : str :=
  match ls with
  | [] => []
  | [l] => l
  | l :: ls' => l ++ sep ++ join sep ls'
  end.

End PyStr.

Import PyStr.

(** ** Scenes and the script parser *)

(** The dict [{"description": ..., "characters": [...], "actions": [...]}]
    always has these three keys: a record. *)
Record Scene : Type := mkScene {
  description : str;
  characters : list str;
  actions : list str
}.

(** The dict bound to [current_scene] before the loop (line 169). *)
Definition initial_scene : Scene :=
  {| description := []; characters := []; actions := [] |}.

(** The state of the loop of [_parse_script]: the list [scenes] and the dict
    [current_scene].  The dict appended to [scenes] is never touched again,
    since [current_scene] is rebound to a new dict right after the append. *)
Definition parser_state : Type := (list Scene * Scene)%type.

(** [if current_scene["description"]: scenes.append(current_scene)] *)
Definition seal (scenes : list Scene) (current_scene : Scene) : list Scene :=
  if truthy (description current_scene) then scenes ++ [current_scene]
  else scenes.

(** The [if]/[elif] chain of the loop body (lines 176-187) on a line that
    is already trimmed and not empty. *)
Definition dispatch (st : parser_state) (line : str) : parser_state :=
  let '(scenes, current_scene) := st in
  if startswith line (lit "SCENE:") then
    (seal scenes current_scene,
     {| description := strip (skipn 6 line);
        characters := [];
        actions := [] |})
  else if startswith line (lit "CHARACTER:") then
    (scenes,
     {| description := description current_scene;
        characters := characters current_scene ++ [strip (skipn 10 line)];
        actions := actions current_scene |})
  else if negb (startswith line (lit "#") || startswith line (lit "//")) then
    (scenes,
     {| description := description current_scene;
        characters := characters current_scene;
        actions := actions current_scene ++ [line] |})
  else st.

(** One iteration of the loop (lines 172-187) on a line of the split:
    trim, skip the line when nothing is left, else classify it. *)
Definition parse_line (st : parser_state) (raw : str) : parser_state :=
  let line := strip raw in
  if negb (truthy line) then st else dispatch st line.

(** The loop over already split lines, then the final append. *)
Definition parse_lines_from (st : parser_state) (lines : list str) : list Scene :=
  let '(scenes, current_scene) := fold_left parse_line lines st in
  seal scenes current_scene.

Definition parse_lines (lines : list str) : list Scene :=
  parse_lines_from ([], initial_scene) lines.

(** [_parse_script] (lines 166-192). *)
Definition _parse_script (script : str) : list Scene :=
  parse_lines (split newline (strip script)).

(** *** Vocabulary for statements about lines *)

(** The trimmed line starts with the marker [SCENE:]. *)
Definition is_scene_line (raw : str) : bool :=
  startswith (strip raw) (lit "SCENE:").

(** The trimmed remainder after the marker [SCENE:]. *)
Definition scene_description (raw : str) : str :=
  strip (skipn 6 (strip raw)).

(** A [SCENE:] line whose trimmed remainder is not empty. *)
Definition opens_scene (raw : str) : bool :=
  is_scene_line raw && truthy (scene_description raw).

(** The trimmed line starts with the marker [CHARACTER:] (and not with
    [SCENE:]). *)
Definition is_character_line (raw : str) : bool :=
  negb (is_scene_line raw) && startswith (strip raw) (lit "CHARACTER:").

(** The trimmed line is not empty and starts with none of [SCENE:],
    [CHARACTER:], [#], [//]. *)
Definition is_action_line (raw : str) : bool :=
  let line := strip raw in
  truthy line
  && negb (startswith line (lit "SCENE:"))
  && negb (startswith line (lit "CHARACTER:"))
  && negb (startswith line (lit "#") || startswith line (lit "//")).

(** The character entries and the actions that the lines [body] contribute,
    in line order. *)
Definition body_characters (body : list str) : list str :=
  map (fun raw => strip (skipn 10 (strip raw))) (filter is_character_line body).

Definition body_actions (body : list str) : list str :=
  map strip (filter is_action_line body).

(** The scene that a [SCENE:] line [marker] followed by the lines [body]
    stands for: emitted only when its description is not empty. *)
Definition block (marker : str) (body : list str) : list Scene :=
  if truthy (scene_description marker) then
    [ {| description := scene_description marker;
         characters := body_characters body;
         actions := body_actions body |} ]
  else [].

(** [rest] is empty or begins with a [SCENE:] line. *)
Definition starts_at_marker (rest : list str) : Prop :=
  match rest with
  | [] => True
  | raw :: _ => is_scene_line raw = true
  end.

(** The lines that survive trimming, trimmed. *)
Definition nonblank (lines : list str) : list str :=
  filter truthy (map strip lines).

(** The trimmed line does not start with the marker [SCENE:]. *)
Definition not_scene_line (raw : str) : Prop := is_scene_line raw = false.

(** Two lists of lines that differ by trailing space only: the first lines
    trim alike behind any prefix, the others survive trimming alike. *)
Definition same_after (L1 L2 : list str) : Prop :=
  match L1, L2 with
  | h1 :: t1, h2 :: t2 =>
      (forall p, strip (p ++ h1) = strip (p ++ h2))
      /\ nonblank t1 = nonblank t2
  | _, _ => False
  end.

(** ** Clips *)

Local Open Scope Z_scope.

(** [ImageClip(path).set_duration(d)] *)
Record ImageClip : Type := mkImageClip {
  ic_path : str;
  ic_duration : Z
}.

(** [TextClip(text, fontsize=.., color=.., bg_color=.., size=(w, None))
    .set_position(..).set_start(..).set_duration(..)] *)
Record TextClip : Type := mkTextClip {
  tc_text : str;
  tc_fontsize : Z;
  tc_color : str;
  tc_bg_color : str;
  tc_size : Z * option Z;
  tc_position : str * str;
  tc_start : Z;
  tc_duration : Z
}.

(** [CompositeVideoClip([scene_clip] + text_clips, size=resolution)] *)
Record CompositeVideoClip : Type := mkComposite {
  cv_scene_clip : ImageClip;
  cv_text_clips : list TextClip;
  cv_size : Z * Z
}.

(** [enumerate(xs)], counting from [i]. *)
Fixpoint enumerate_from {A : Type} (i : Z) (xs : list A) : list (Z * A) :=
  match xs with
  | [] => []
  | x :: xs' => (i, x) :: enumerate_from (i + 1) xs'
  end.

Definition enumerate {A : Type} (xs : list A) : list (Z * A) :=
  enumerate_from 0 xs.

(** Line 117: [max(len(scene["actions"]) * 3, 5)]. *)
Definition scene_duration (scene : Scene) : Z :=
  Z.max (Z.of_nat (List.length (actions scene)) * 3) 5.

(** Lines 123-131: the overlay of the action at index [i]. *)
Definition text_clip (resolution : Z * Z) (i : Z) (action : str) : TextClip :=
  {| tc_text := action;
     tc_fontsize := 30;
     tc_color := lit "white";
     tc_bg_color := lit "rgba(0,0,0,0.5)";
     tc_size := (fst resolution - 100, None);
     tc_position := (lit "center", lit "bottom");
     tc_start := i * 3;
     tc_duration := 3 |}.

(** Lines 121-132: the list [text_clips] after the inner loop. *)
Definition text_clips (resolution : Z * Z) (scene : Scene) : list TextClip :=
  map (fun ia => text_clip resolution (fst ia) (snd ia))
      (enumerate (actions scene)).

(** Lines 117-138: the clip of a scene whose image is at
    [scene_image_path], as it is when none of the moviepy constructors
    raises. *)
Definition scene_with_text (scene : Scene) (scene_image_path : str)
    (resolution : Z * Z) : CompositeVideoClip :=
  {| cv_scene_clip :=
       {| ic_path := scene_image_path; ic_duration := scene_duration scene |};
     cv_text_clips := text_clips resolution scene;
     cv_size := resolution |}.

(** ** Effects: exceptions, the outside world and what is done to it *)

(** What a call gives back: a value, or an exception [e] with [str(e)] the
    message.  Every exception here is caught as [Exception]. *)
Inductive outcome (A : Type) : Type :=
  | Returned (a : A)
  | Raised (msg : str).

Arguments Returned {A} a.
Arguments Raised {A} msg.

(** The fields of [summary.json] that [check_api_status] reads. *)
Record status_summary : Type := mkSummary {
  page_status : str;
  incident_impacts : list str
}.

(** The body of the [try] of [generate_scene_image] (lines 82-92): the image
    was saved at a path, or a [requests.exceptions.RequestException] was
    raised, or some other exception was. *)
Inductive post_result : Type :=
  | Saved (image_path : str)
  | RequestException (msg : str)
  | OtherException (msg : str).

(** Calls that leave the program, in the order they happen. *)
Inductive event : Type :=
  | Printed (msg : str)
  | ImageRequested (prompt : str) (resolution : Z * Z)
  | Generated (scene_description : str) (result : outcome str)
  | Rendered (clips : list CompositeVideoClip) (output_path : str) (fps : Z)
  | ClipClosed (clip : CompositeVideoClip)
  | FinalClosed.

(** [not clips] for a list: true when it is empty. *)
Definition is_nil {A : Type} (xs : list A) : bool :=
  match xs with [] => true | _ :: _ => false end.

(** [os.path.join(a, b)] on POSIX. *)
Definition os_path_join (a b : str) : str :=
  if startswith b (lit "/") then b
  else if is_empty a || startswith (rev a) (lit "/") then a ++ b
  else a ++ lit "/" ++ b.

(** [self.output_dir] *)
Definition output_dir : str := lit "generated_animations".

Definition service_unavailable_msg : str :=
  lit "Stability AI API is currently experiencing issues".

Definition no_scenes_msg : str :=
  lit "No scenes were successfully generated".

Section Generator.

(** The state of everything outside the program, and the places where the
    program reaches it. *)
Variable World : Type.

(** [requests.get(".../summary.json").json()] and the reads of its fields. *)
Variable get_summary : World -> outcome status_summary * World.

(** [requests.get(".../v2/components.json").json()] and the [status] of
    each component. *)
Variable get_components : World -> outcome (list str) * World.

(** The POST, the decoding of the answer and the writing of the image file.
    The name [base64] used at line 90 is not imported by the file itself:
    whether that line can succeed is part of what this call answers. *)
Variable post_and_save : str -> Z * Z -> World -> post_result * World.

(** [ImageClip(scene_image_path)] (line 118): the image file is read. *)
Variable new_image_clip : str -> World -> outcome unit * World.

(** [TextClip(action, fontsize=30, color='white', bg_color=..., size=...)]
    (lines 123-128): the text is rendered to an image. *)
Variable new_text_clip : str -> Z * option Z -> World -> outcome unit * World.

(** [CompositeVideoClip([scene_clip] + text_clips, size=resolution)]
    (lines 135-138). *)
Variable new_composite_clip :
  ImageClip -> list TextClip -> Z * Z -> World -> outcome unit * World.

(** [concatenate_videoclips(clips).write_videofile(path, fps, codec)] *)
Variable write_videofile :
  list CompositeVideoClip -> str -> Z -> World -> outcome unit * World.

Record state : Type := mkState {
  world : World;
  log : list event
}.

(** Computations that read and change the state and may raise. *)
Definition M (A : Type) : Type := state -> outcome A * state.

Definition ret {A : Type} (a : A) : M A := fun st => (Returned a, st).

Definition raise {A : Type} (msg : str) : M A := fun st => (Raised msg, st).

Definition bind {A B : Type} (c : M A) (k : A -> M B) : M B :=
  fun st =>
    match c st with
    | (Returned a, st') => k a st'
    | (Raised msg, st') => (Raised msg, st')
    end.

(** [try: c  except Exception as e: handler(str(e))] *)
Definition try_except {A : Type} (c : M A) (handler : str -> M A) : M A :=
  fun st =>
    match c st with
    | (Returned a, st') => (Returned a, st')
    | (Raised msg, st') => handler msg st'
    end.

Definition emit (e : event) : M unit :=
  fun st => (Returned tt, {| world := world st; log := log st ++ [e] |}).

(** A call to the outside: its answer is handed over as a value. *)
Definition call {A : Type} (f : World -> A * World) : M A :=
  fun st =>
    let '(a, w) := f (world st) in
    (Returned a, {| world := w; log := log st |}).

Definition print (msg : str) : M unit := emit (Printed msg).

(** A call to the outside whose exception, if any, is raised here. *)
Definition invoke {A : Type} (f : World -> outcome A * World) : M A :=
  fun st =>
    match f (world st) with
    | (Returned a, w) => (Returned a, {| world := w; log := log st |})
    | (Raised msg, w) => (Raised msg, {| world := w; log := log st |})
    end.

Notation "x <- c ;; k" := (bind c (fun x => k))
  (at level 61, c at next level, right associativity).
Notation "c ;; k" := (bind c (fun _ => k))
  (at level 61, right associativity).

(** Lines 18-34. *)
Definition check_api_status : M bool :=
  r <- call get_summary ;;
  match r with
  | Returned status_data =>
      let is_up := eqb (page_status status_data) (lit "UP") in
      let has_major_outage :=
        existsb (fun impact => eqb impact (lit "MAJOROUTAGE"))
                (incident_impacts status_data) in
      ret (is_up && negb has_major_outage)
  | Raised e =>
      print (lit "Failed to check API status: " ++ e) ;;
      ret false
  end.

(** Lines 36-46. *)
Definition check_components_status : M bool :=
  r <- call get_components ;;
  match r with
  | Returned components =>
      ret (forallb (fun status => eqb status (lit "OPERATIONAL")) components)
  | Raised e =>
      print (lit "Failed to check components status: " ++ e) ;;
      ret false
  end.

(** The condition of line 54:
    [not self.check_api_status() or not self.check_components_status()]. *)
Definition service_down : M bool :=
  api <- check_api_status ;;
  if negb api then ret true
  else
    components <- check_components_status ;;
    ret (negb components).

(** Lines 48-95. *)
Definition generate_scene_image (scene_description : str)
    (resolution : Z * Z) : M str :=
  down <- service_down ;;
  if (down : bool) then raise service_unavailable_msg
  else
    let prompt :=
      scene_description ++ lit ", animation style, high quality, detailed" in
    emit (ImageRequested prompt resolution) ;;
    r <- call (post_and_save prompt resolution) ;;
    match r with
    | Saved image_path => ret image_path
    | RequestException e => raise (lit "Image generation failed: " ++ e)
    | OtherException e => raise e
    end.

(** The call of line 111, with what it gave written to the log. *)
Definition traced_generate (scene_description : str) (resolution : Z * Z)
    : M str :=
  fun st =>
    let '(r, st') := generate_scene_image scene_description resolution st in
    (r, {| world := world st';
           log := log st' ++ [Generated scene_description r] |}).

(** Lines 121-132: the inner loop over [enumerate(scene["actions"])], from
    the list [text_clips] built so far. *)
Fixpoint text_clips_loop (resolution : Z * Z) (indexed : list (Z * str))
    (text_clips : list TextClip) : M (list TextClip) :=
  match indexed with
  | [] => ret text_clips
  | (i, action) :: indexed' =>
      invoke (new_text_clip action (fst resolution - 100, None)) ;;
      text_clips_loop resolution indexed'
        (text_clips ++ [text_clip resolution i action])
  end.

(** Lines 116-138: the clip of a scene whose image is at
    [scene_image_path]; each constructor may raise. *)
Definition build_scene_clip (scene : Scene) (scene_image_path : str)
    (resolution : Z * Z) : M CompositeVideoClip :=
  let duration := scene_duration scene in
  invoke (new_image_clip scene_image_path) ;;
  let scene_clip :=
    {| ic_path := scene_image_path; ic_duration := duration |} in
  text_clips <-
    text_clips_loop resolution (enumerate (actions scene)) [] ;;
  invoke (new_composite_clip scene_clip text_clips resolution) ;;
  ret {| cv_scene_clip := scene_clip;
         cv_text_clips := text_clips;
         cv_size := resolution |}.

(** Lines 110-138: the body of the [try] for one scene. *)
Definition scene_body (scene : Scene) (resolution : Z * Z)
    : M CompositeVideoClip :=
  scene_image_path <- traced_generate (description scene) resolution ;;
  build_scene_clip scene scene_image_path resolution.

(** Lines 109-143: one turn of the loop, from the list [clips] built so
    far: the [try] with its [except Exception]. *)
Definition scene_iteration (scene : Scene) (resolution : Z * Z)
    (clips : list CompositeVideoClip) : M (list CompositeVideoClip) :=
  try_except
    (scene_with_text <- scene_body scene resolution ;;
     ret (clips ++ [scene_with_text]))
    (fun e =>
       print (lit "Error processing scene: " ++ e) ;;
       ret clips).

(** Lines 108-143: the loop over the scenes, from the list [clips] built so
    far. *)
Fixpoint scene_loop (scenes : list Scene) (resolution : Z * Z)
    (clips : list CompositeVideoClip) : M (list CompositeVideoClip) :=
  match scenes with
  | [] => ret clips
  | scene :: scenes' =>
      clips' <- scene_iteration scene resolution clips ;;
      scene_loop scenes' resolution clips'
  end.

(** The turns of the loop one after the other: the state in which each scene
    is reached, and what the body of the [try] gives there. *)
Fixpoint loop_steps (scenes : list Scene) (resolution : Z * Z)
    (clips : list CompositeVideoClip) (st : state)
    : list (state * outcome CompositeVideoClip) :=
  match scenes with
  | [] => []
  | scene :: scenes' =>
      (st, fst (scene_body scene resolution st))
      :: match scene_iteration scene resolution clips st with
         | (Returned clips', st') => loop_steps scenes' resolution clips' st'
         | (Raised _, _) => []
         end
  end.

(** Lines 160-161. *)
Fixpoint close_all (clips : list CompositeVideoClip) : M unit :=
  match clips with
  | [] => ret tt
  | clip :: clips' => emit (ClipClosed clip) ;; close_all clips'
  end.

(** Lines 97-164. *)
Definition create_animation (script : str) (output_filename : str)
    (resolution : Z * Z) (fps : Z) : M str :=
  let scenes := _parse_script script in
  clips <- scene_loop scenes resolution [] ;;
  if is_nil clips then raise no_scenes_msg
  else
    let output_path := os_path_join output_dir output_filename in
    emit (Rendered clips output_path fps) ;;
    r <- call (write_videofile clips output_path fps) ;;
    match r with
    | Raised e => raise e
    | Returned _ =>
        close_all clips ;;
        emit FinalClosed ;;
        ret output_path
    end.

(** A run starts with nothing in the log. *)
Definition start (w : World) : state := {| world := w; log := [] |}.

End Generator.

(** *** The body of the [try] of [generate_scene_image], as the file has it *)

(** Lines 82-86: [requests.post], [raise_for_status] and the read of
    [response.json()["artifacts"][0]["base64"]]. *)
Inductive fetch_result : Type :=
  | Fetched (image_data : str)
  | FetchRequestException (msg : str)
  | FetchOtherException (msg : str).

(** [str(e)] of the [NameError] of line 90: no import of the file binds the
    name [base64]. *)
Definition base64_name_error : str := lit "name 'base64' is not defined".

Section Shipped.

Variable World : Type.

(** Lines 82-86. *)
Variable post_for_image : str -> Z * Z -> World -> fetch_result * World.

(** Lines 87-89: the path built from [time.time()] and the [open] of the
    file for writing. *)
Variable open_image_file : World -> outcome str * World.

(** The end of the [with] block: the file is closed. *)
Variable close_image_file : World -> World.

(** Lines 82-92.  Line 90 looks up the name [base64] before anything is
    written, and raises [NameError]; the file is closed on the way out. *)
Definition try_body_as_shipped (prompt : str) (resolution : Z * Z)
    (w : World) : post_result * World :=
  match post_for_image prompt resolution w with
  | (Fetched image_data, w1) =>
      match open_image_file w1 with
      | (Returned image_path, w2) =>
          (OtherException base64_name_error, close_image_file w2)
      | (Raised e, w2) => (OtherException e, w2)
      end
  | (FetchRequestException e, w1) => (RequestException e, w1)
  | (FetchOtherException e, w1) => (OtherException e, w1)
  end.

End Shipped.

(** *** Reading a log *)

(** What each call of [generate_scene_image] was asked and gave, in order. *)
Fixpoint image_outcomes (l : list event) : list (str * outcome str) :=
  match l with
  | [] => []
  | Generated d r :: l' => (d, r) :: image_outcomes l'
  | _ :: l' => image_outcomes l'
  end.

(** The prompts posted to the image service, in order. *)
Fixpoint image_requests (l : list event) : list str :=
  match l with
  | [] => []
  | ImageRequested prompt _ :: l' => prompt :: image_requests l'
  | _ :: l' => image_requests l'
  end.

(** What was handed to the renderer, in order. *)
Fixpoint rendered (l : list event)
    : list (list CompositeVideoClip * str * Z) :=
  match l with
  | [] => []
  | Rendered clips output_path fps :: l' =>
      (clips, output_path, fps) :: rendered l'
  | _ :: l' => rendered l'
  end.

(** What was printed, in order. *)
Fixpoint printed (l : list event) : list str :=
  match l with
  | [] => []
  | Printed msg :: l' => msg :: printed l'
  | _ :: l' => printed l'
  end.

Definition failed {A : Type} (r : outcome A) : bool :=
  match r with Returned _ => false | Raised _ => true end.

(** The clips of the turns whose [try] body returned, in order. *)
Fixpoint completed (results : list (outcome CompositeVideoClip))
    : list CompositeVideoClip :=
  match results with
  | [] => []
  | Returned clip :: results' => clip :: completed results'
  | Raised _ :: results' => completed results'
  end.

(** ** A scripted outside world, to run the generator on *)

Module Demo.

(** What the status page and the image service will answer, call by call;
    a feed that ran out answers "fine". *)
Record demo_world : Type := mkDemo {
  status_feed : list bool;
  image_feed : list bool
}.

Definition summary_up : status_summary :=
  {| page_status := lit "UP"; incident_impacts := [] |}.

Definition summary_outage : status_summary :=
  {| page_status := lit "HASISSUES";
     incident_impacts := [lit "MAJOROUTAGE"] |}.

Definition get_summary (w : demo_world)
    : outcome status_summary * demo_world :=
  match status_feed w with
  | false :: feed =>
      (Returned summary_outage,
       {| status_feed := feed; image_feed := image_feed w |})
  | true :: feed =>
      (Returned summary_up,
       {| status_feed := feed; image_feed := image_feed w |})
  | [] => (Returned summary_up, w)
  end.

Definition get_components (w : demo_world)
    : outcome (list str) * demo_world :=
  (Returned [lit "OPERATIONAL"; lit "OPERATIONAL"], w).

Definition post_and_save (prompt : str) (resolution : Z * Z)
    (w : demo_world) : post_result * demo_world :=
  match image_feed w with
  | false :: feed =>
      (RequestException (lit "500 Server Error"),
       {| status_feed := status_feed w; image_feed := feed |})
  | true :: feed =>
      (Saved (lit "generated_animations/scene_1700000000.png"),
       {| status_feed := status_feed w; image_feed := feed |})
  | [] => (Saved (lit "generated_animations/scene_1700000000.png"), w)
  end.

(** The moviepy constructors never raise here. *)
Definition new_image_clip (scene_image_path : str) (w : demo_world)
    : outcome unit * demo_world :=
  (Returned tt, w).

Definition new_text_clip (action : str) (size : Z * option Z)
    (w : demo_world) : outcome unit * demo_world :=
  (Returned tt, w).

Definition new_composite_clip (scene_clip : ImageClip)
    (text_clips : list TextClip) (size : Z * Z) (w : demo_world)
    : outcome unit * demo_world :=
  (Returned tt, w).

Definition write_videofile (clips : list CompositeVideoClip)
    (output_path : str) (fps : Z) (w : demo_world)
    : outcome unit * demo_world :=
  (Returned tt, w).

Definition run (script output_filename : str) (w : demo_world)
    : outcome str * state demo_world :=
  create_animation get_summary get_components post_and_save
    new_image_clip new_text_clip new_composite_clip write_videofile
    script output_filename (1024, 1024) 24 (start w).

(** The status page always reports an outage. *)
Definition get_summary_outage (w : demo_world)
    : outcome status_summary * demo_world :=
  (Returned summary_outage, w).

Definition run_outage (script output_filename : str) (w : demo_world)
    : outcome str * state demo_world :=
  create_animation get_summary_outage get_components post_and_save
    new_image_clip new_text_clip new_composite_clip write_videofile
    script output_filename (1024, 1024) 24 (start w).

Definition script_of (lines : list string) : str :=
  join [newline] (map lit lines).

(** Three scenes; the second has two actions, the others one. *)
Definition three_scenes : str :=
  script_of
    [ "SCENE: A forest at sunset";
      "CHARACTER: Young wizard";
      "The wizard raises a staff";
      "";
      "SCENE: A stone circle";
      "# the guardians arrive";
      "The wizard steps in";
      "Guardians appear";
      "SCENE: A mountain pass";
      "Snow falls" ]%string.

Definition one_scene : str :=
  script_of [ "SCENE: A forest at sunset"; "The wizard raises a staff" ]%string.

(** The lines of [three_scenes], cut at its second [SCENE:] line. *)
Definition first_block : list str :=
  map lit [ "SCENE: A forest at sunset";
            "CHARACTER: Young wizard";
            "The wizard raises a staff";
            "" ]%string.

Definition second_marker : str := lit "SCENE: A stone circle".

Definition second_body : list str :=
  map lit [ "# the guardians arrive";
            "The wizard steps in";
            "Guardians appear" ]%string.

Definition third_block : list str :=
  map lit [ "SCENE: A mountain pass"; "Snow falls" ]%string.

(** Two lines before the first [SCENE:] line. *)
Definition stray_lines : list str :=
  map lit [ "CHARACTER: Nobody"; "  Something happens" ]%string.

Definition after_stray_lines : list str :=
  map lit [ "SCENE: A forest at sunset"; "The wizard raises a staff" ]%string.

Definition script_with_stray_lines : str :=
  join [newline] (stray_lines ++ after_stray_lines).

(** A [SCENE:] line with nothing behind the marker, between two scenes. *)
Definition before_empty : list str :=
  map lit [ "SCENE: A forest at sunset"; "The wizard raises a staff" ]%string.

Definition empty_marker : str := lit "SCENE:   ".

Definition empty_body : list str :=
  map lit [ "CHARACTER: Ghost"; "A lost action" ]%string.

Definition after_empty : list str :=
  map lit [ "SCENE: A stone circle"; "The wizard steps in" ]%string.

Definition script_with_empty_scene : str :=
  join [newline] (before_empty ++ empty_marker :: empty_body ++ after_empty).



Definition image_path : str := lit "generated_animations/scene_1700000000.png".

Definition quiet_world : demo_world :=
  {| status_feed := []; image_feed := [] |}.

(** The image service fails at every request. *)
Definition all_fail : demo_world :=
  {| status_feed := []; image_feed := [false; false; false] |}.

(** The image service fails at the second request only. *)
Definition second_fails : demo_world :=
  {| status_feed := []; image_feed := [true; false; true] |}.

(** The status page reports an outage at the first check only. *)
Definition down_at_first : demo_world :=
  {| status_feed := [false]; image_feed := [] |}.

(** The status page reports an outage at the first three checks. *)
Definition down_three_times : demo_world :=
  {| status_feed := [false; false; false]; image_feed := [] |}.

End Demo.

(** ** Further vocabulary *)

(** The trimmed line is empty or starts with [#] or [//]: the loop body
    does nothing on it. *)
Definition is_ignored_line (raw : str) : bool :=
  let line := strip raw in
  is_empty line || startswith line (lit "#") || startswith line (lit "//").

(** Two scenes with the same description and the same actions. *)
Definition same_timing (a b : Scene) : Prop :=
  description a = description b /\ actions a = actions b.

(** The text prompt built at line 69. *)
Definition prompt_of (scene_description : str) : str :=
  scene_description ++ lit ", animation style, high quality, detailed".

(** The line printed at line 142 for an exception with message [e]. *)
Definition error_line (e : str) : str := lit "Error processing scene: " ++ e.

(** The clips closed, in order. *)
Fixpoint closed (l : list event) : list CompositeVideoClip :=
  match l with
  | [] => []
  | ClipClosed clip :: l' => clip :: closed l'
  | _ :: l' => closed l'
  end.

(** How often the concatenated video was closed. *)
Fixpoint final_closed (l : list event) : nat :=
  match l with
  | [] => 0%nat
  | FinalClosed :: l' => S (final_closed l')
  | _ :: l' => final_closed l'
  end.

(** The printed lines that start with [Error processing scene: ]. *)
Definition scene_errors (l : list event) : list str :=
  filter (fun msg => startswith msg (lit "Error processing scene: "))
         (printed l).

(** The lines that line 142 prints for the turns whose [try] body raised. *)
Fixpoint error_lines {A : Type} (results : list (outcome A)) : list str :=
  match results with
  | [] => []
  | Returned _ :: results' => error_lines results'
  | Raised e :: results' => error_line e :: error_lines results'
  end.

(** What the statements of [create_animation] before line 145 can write to
    the log. *)
Definition loop_event (e : event) : Prop :=
  match e with
  | Printed _ | ImageRequested _ _ | Generated _ _ => True
  | _ => False
  end.

(** A line printed by one of the two status checks. *)
Definition check_event (e : event) : Prop :=
  exists msg,
    e = Printed (lit "Failed to check API status: " ++ msg)
    \/ e = Printed (lit "Failed to check components status: " ++ msg).

(** ** The entry point *)

(** The literal of lines 196-210. *)
Definition main_script : str :=
  join [newline]
    (map lit
       [ "";
         "    SCENE: A magical forest at sunset with glowing fireflies";
         "    CHARACTER: Young wizard with flowing robes";
         "    CHARACTER: Magical crystal staff";
         "    The wizard raises their staff toward the sky";
         "    Magical energy swirls around the crystal";
         "    The fireflies gather in a spiral pattern";
         "    ";
         "    SCENE: Ancient stone circle under starlight";
         "    CHARACTER: Wizard";
         "    CHARACTER: Spirit guardians";
         "    The wizard steps into the center of the circle";
         "    Ethereal spirit guardians materialize around them";
         "    Magic pulses through the stone circle";
         "    " ]%string).

Section Main.

Variable World : Type.
Variable get_summary : World -> outcome status_summary * World.
Variable get_components : World -> outcome (list str) * World.
Variable post_and_save : str -> Z * Z -> World -> post_result * World.
Variable new_image_clip : str -> World -> outcome unit * World.
Variable new_text_clip : str -> Z * option Z -> World -> outcome unit * World.
Variable new_composite_clip :
  ImageClip -> list TextClip -> Z * Z -> World -> outcome unit * World.
Variable write_videofile :
  list CompositeVideoClip -> str -> Z -> World -> outcome unit * World.

(** [StabilityAnimationGenerator()]: [load_dotenv], [os.getenv] and
    [os.makedirs(self.output_dir, exist_ok=True)] (lines 10-16). *)
Variable init_generator : World -> outcome unit * World.

(** Lines 194-223. *)
Definition main : M World unit :=
  try_except
    (bind (call init_generator) (fun r =>
       match r with
       | Raised e => raise e
       | Returned _ =>
           bind (create_animation get_summary get_components post_and_save
                   new_image_clip new_text_clip new_composite_clip
                   write_videofile main_script (lit "magical_scene.mp4")
                   (1024, 1024) 24)
                (fun output_path =>
                   print (lit "Animation generated successfully: "
                          ++ output_path))
       end))
    (fun e => print (lit "Animation generation failed: " ++ e)).

End Main.

(** The two scenes written in [main_script]. *)
Definition main_scenes : list Scene :=
  [ {| description :=
         lit "A magical forest at sunset with glowing fireflies";
       characters :=
         [ lit "Young wizard with flowing robes";
           lit "Magical crystal staff" ];
       actions :=
         [ lit "The wizard raises their staff toward the sky";
           lit "Magical energy swirls around the crystal";
           lit "The fireflies gather in a spiral pattern" ] |};
    {| description := lit "Ancient stone circle under starlight";
       characters := [ lit "Wizard"; lit "Spirit guardians" ];
       actions :=
         [ lit "The wizard steps into the center of the circle";
           lit "Ethereal spirit guardians materialize around them";
           lit "Magic pulses through the stone circle" ] |} ].

(** ** More scripted runs *)

Module DemoMore.

Import Demo.

(** [one_scene], indented and with spaces at the end of its lines. *)
Definition one_scene_indented : str :=
  script_of [ "    SCENE: A forest at sunset  ";
              "  The wizard raises a staff " ]%string.

(** A text of blank lines and a second scene. *)
Definition second_script : str :=
  script_of [ "  "; "SCENE: A stone circle"; "The wizard steps in" ]%string.

Definition second_script_blanks : list str := [lit "  "].

Definition second_script_rest : list str :=
  map lit [ "SCENE: A stone circle"; "The wizard steps in" ]%string.

(** A text without any [SCENE:] line. *)
Definition no_scene_script : str :=
  script_of [ "CHARACTER: Nobody"; "Something happens"; "SCENE:" ]%string.

(** [one_scene] with a [CHARACTER:] line after the [SCENE:] line. *)
Definition one_scene_with_cast : str :=
  script_of [ "SCENE: A forest at sunset";
              "CHARACTER: Young wizard";
              "The wizard raises a staff" ]%string.

Definition cast_line : str := lit "CHARACTER: Young wizard".

Definition before_cast_line : list str := [lit "SCENE: A forest at sunset"].

Definition after_cast_line : list str := [lit "The wizard raises a staff"].

End DemoMore.

(** ** Scripted runs of the file as it is *)

Module ShippedDemo.

Import Demo.

(** The image service answers by the feed: image data, or an error. *)
Definition post_for_image (prompt : str) (resolution : Z * Z)
    (w : demo_world) : fetch_result * demo_world :=
  match image_feed w with
  | false :: feed =>
      (FetchRequestException (lit "500 Server Error"),
       {| status_feed := status_feed w; image_feed := feed |})
  | true :: feed =>
      (Fetched (lit "iVBORw0KGgo="),
       {| status_feed := status_feed w; image_feed := feed |})
  | [] => (Fetched (lit "iVBORw0KGgo="), w)
  end.

Definition open_image_file (w : demo_world) : outcome str * demo_world :=
  (Returned (lit "generated_animations/scene_1700000000.png"), w).

Definition close_image_file (w : demo_world) : demo_world := w.

Definition post_and_save : str -> Z * Z -> demo_world -> post_result * demo_world :=
  try_body_as_shipped post_for_image open_image_file close_image_file.

Definition run (script output_filename : str) (w : demo_world)
    : outcome str * state demo_world :=
  create_animation get_summary get_components post_and_save
    new_image_clip new_text_clip new_composite_clip write_videofile
    script output_filename (1024, 1024) 24 (start w).

(** The turns of the loop of [run] on [script]. *)
Definition steps (script : str) (w : demo_world)
    : list (state demo_world * outcome CompositeVideoClip) :=
  loop_steps get_summary get_components post_and_save
    new_image_clip new_text_clip new_composite_clip
    (_parse_script script) (1024, 1024) [] (start w).

End ShippedDemo.

(** * Facts *)

Unset Implicit Arguments.

(** ** Trimming and splitting *)

Section StripSplit.

Local Open Scope list_scope.

Lemma strip_cons_space (c : char) (s : str) :
  isspace c = true -> strip (c :: s) = strip s.
Proof.
  intros Hc. unfold strip. simpl. now rewrite Hc.
Qed.

Lemma rstrip_snoc_space (s : str) (c : char) :
  isspace c = true -> rstrip (s ++ [c]) = rstrip s.
Proof.
  intros Hc. induction s as [|a s IH]; simpl.
  - now rewrite Hc.
  - now rewrite IH.
Qed.

Lemma lstrip_snoc_space (s : str) (c : char) :
  isspace c = true ->
  lstrip (s ++ [c]) = if is_empty (lstrip s) then [] else lstrip s ++ [c].
Proof.
  intros Hc. induction s as [|a s IH]; simpl.
  - now rewrite Hc.
  - destruct (isspace a); [exact IH | reflexivity].
Qed.

Lemma strip_snoc_space (s : str) (c : char) :
  isspace c = true -> strip (s ++ [c]) = strip s.
Proof.
  intros Hc. unfold strip. rewrite lstrip_snoc_space by exact Hc.
  destruct (lstrip s) as [|a t]; simpl is_empty; cbv iota.
  - reflexivity.
  - change (a :: t) with ([a] ++ t). rewrite <- app_assoc.
    simpl app at 1.
    now apply (rstrip_snoc_space (a :: t)).
Qed.

Lemma isspace_newline : isspace newline = true.
Proof. reflexivity. Qed.

Lemma split_not_nil (sep : char) (s : str) : split sep s <> [].
Proof.
  destruct s as [|c s]; simpl; [discriminate|].
  destruct (c =? sep)%N; [discriminate|].
  destruct (split sep s); discriminate.
Qed.

Lemma nonblank_cons_blank (l : str) (ls : list str) :
  strip l = [] -> nonblank (l :: ls) = nonblank ls.
Proof.
  intros H. unfold nonblank. simpl. now rewrite H.
Qed.

(** A space in front of the text changes nothing in the lines that survive
    trimming. *)
Lemma nonblank_split_cons_space (c : char) (s : str) :
  isspace c = true ->
  nonblank (split newline (c :: s)) = nonblank (split newline s).
Proof.
  intros Hc. simpl. destruct (c =? newline)%N.
  - now apply nonblank_cons_blank.
  - destruct (split newline s) as [|l ls] eqn:E.
    + now apply split_not_nil in E.
    + unfold nonblank. simpl. now rewrite strip_cons_space.
Qed.

Lemma nonblank_split_lstrip (s : str) :
  nonblank (split newline (lstrip s)) = nonblank (split newline s).
Proof.
  induction s as [|c s IH]; [reflexivity|].
  simpl lstrip. destruct (isspace c) eqn:Hc; [|reflexivity].
  now rewrite nonblank_split_cons_space.
Qed.

Lemma same_after_nonblank (L1 L2 : list str) :
  same_after L1 L2 -> nonblank L1 = nonblank L2.
Proof.
  destruct L1 as [|h1 t1], L2 as [|h2 t2]; simpl; try tauto.
  intros [Hh Ht]. unfold nonblank in *. simpl.
  specialize (Hh []). simpl in Hh. now rewrite Hh, Ht.
Qed.

Lemma same_after_cons (c : char) (L1 L2 : list str) :
  same_after L1 L2 ->
  same_after
    (if (c =? newline)%N then [] :: L1
     else match L1 with [] => [[c]] | l :: ls => (c :: l) :: ls end)
    (if (c =? newline)%N then [] :: L2
     else match L2 with [] => [[c]] | l :: ls => (c :: l) :: ls end).
Proof.
  intros H. destruct (c =? newline)%N.
  - simpl. split; [reflexivity|]. now apply same_after_nonblank.
  - destruct L1 as [|h1 t1], L2 as [|h2 t2]; simpl in *; try tauto.
    destruct H as [Hh Ht]. split; [|exact Ht].
    intros p. specialize (Hh (p ++ [c])).
    now rewrite <- !app_assoc in Hh.
Qed.

Lemma same_after_split_rstrip (s : str) :
  same_after (split newline (rstrip s)) (split newline s).
Proof.
  induction s as [|c s IH].
  - simpl. split; reflexivity.
  - simpl rstrip. destruct (isspace c && is_empty (rstrip s)) eqn:E.
    + apply andb_true_iff in E. destruct E as [Hc He].
      destruct (rstrip s) as [|]; [|discriminate].
      simpl in IH |- *.
      destruct (split newline s) as [|h2 t2]; [tauto|].
      destruct IH as [Hh Ht].
      destruct (c =? newline)%N.
      * split; [reflexivity|].
        specialize (Hh []). simpl in Hh.
        unfold nonblank in *. simpl. rewrite <- Hh. simpl. exact Ht.
      * split; [|exact Ht].
        intros p. specialize (Hh (p ++ [c])).
        rewrite <- !app_assoc in Hh. simpl in Hh. rewrite <- Hh.
        rewrite !app_nil_r. symmetry. now apply strip_snoc_space.
    + apply (same_after_cons c) in IH. exact IH.
Qed.

(** Trimming the whole text first does not change which lines survive
    trimming. *)
Lemma nonblank_split_strip (s : str) :
  nonblank (split newline (strip s)) = nonblank (split newline s).
Proof.
  unfold strip.
  rewrite (same_after_nonblank _ _ (same_after_split_rstrip (lstrip s))).
  apply nonblank_split_lstrip.
Qed.

End StripSplit.

(** ** The parser loop *)

Section ParserLoop.

Local Open Scope list_scope.

(** Blank lines fall out and the other lines are seen trimmed. *)
Lemma fold_parse_line_nonblank (lines : list str) (st : parser_state) :
  fold_left parse_line lines st = fold_left dispatch (nonblank lines) st.
Proof.
  revert st. induction lines as [|raw lines IH]; intros st; [reflexivity|].
  simpl fold_left. rewrite IH. unfold parse_line, nonblank. simpl.
  destruct (truthy (strip raw)); reflexivity.
Qed.

Lemma parse_lines_from_nonblank (lines1 lines2 : list str) (st : parser_state) :
  nonblank lines1 = nonblank lines2 ->
  parse_lines_from st lines1 = parse_lines_from st lines2.
Proof.
  intros H. unfold parse_lines_from.
  now rewrite !fold_parse_line_nonblank, H.
Qed.

(** The parser sees the lines of the text itself. *)
Lemma parse_script_lines (script : str) :
  _parse_script script = parse_lines (split newline script).
Proof.
  apply parse_lines_from_nonblank, nonblank_split_strip.
Qed.

Lemma scene_line_truthy (raw : str) :
  is_scene_line raw = true -> truthy (strip raw) = true.
Proof.
  unfold is_scene_line. destruct (strip raw); [discriminate | reflexivity].
Qed.

(** A [SCENE:] line seals the current scene and opens a new one. *)
Lemma parse_line_scene (scenes : list Scene) (cur : Scene) (raw : str) :
  is_scene_line raw = true ->
  parse_line (scenes, cur) raw =
  (seal scenes cur,
   {| description := scene_description raw; characters := []; actions := [] |}).
Proof.
  intros H. unfold parse_line. rewrite (scene_line_truthy _ H). simpl.
  unfold is_scene_line in H. now rewrite H.
Qed.

(** Any other line leaves [scenes] alone and adds at most one entry to the
    current scene. *)
Lemma parse_line_other (scenes : list Scene) (cur : Scene) (raw : str) :
  is_scene_line raw = false ->
  parse_line (scenes, cur) raw =
  (scenes,
   {| description := description cur;
      characters := characters cur ++ body_characters [raw];
      actions := actions cur ++ body_actions [raw] |}).
Proof.
  intros H. unfold parse_line, body_characters, body_actions.
  unfold is_character_line, is_action_line. simpl filter.
  rewrite H. unfold is_scene_line in H.
  destruct (truthy (strip raw)) eqn:Ht; simpl.
  - rewrite H. simpl.
    destruct (startswith (strip raw) (lit "CHARACTER:")) eqn:Hc; simpl.
    + now rewrite app_nil_r.
    + destruct (startswith (strip raw) (lit "#")
                || startswith (strip raw) (lit "//")); simpl.
      * destruct cur; simpl. now rewrite !app_nil_r.
      * now rewrite app_nil_r.
  - assert (E : strip raw = []) by (destruct (strip raw); [reflexivity | discriminate]).
    rewrite E. simpl. destruct cur; simpl. now rewrite !app_nil_r.
Qed.

Lemma body_characters_cons (raw : str) (body : list str) :
  body_characters (raw :: body) = body_characters [raw] ++ body_characters body.
Proof.
  unfold body_characters. simpl. destruct (is_character_line raw); reflexivity.
Qed.

Lemma body_actions_cons (raw : str) (body : list str) :
  body_actions (raw :: body) = body_actions [raw] ++ body_actions body.
Proof.
  unfold body_actions. simpl. destruct (is_action_line raw); reflexivity.
Qed.

(** Lines without a [SCENE:] line among them only extend the current
    scene. *)
Lemma fold_parse_line_body (body : list str) (scenes : list Scene) (cur : Scene) :
  Forall not_scene_line body ->
  fold_left parse_line body (scenes, cur) =
  (scenes,
   {| description := description cur;
      characters := characters cur ++ body_characters body;
      actions := actions cur ++ body_actions body |}).
Proof.
  intros H. revert cur. induction H as [|raw body Hraw _ IH]; intros cur.
  - simpl. destruct cur; simpl. now rewrite !app_nil_r.
  - simpl fold_left. rewrite (parse_line_other _ _ _ Hraw), IH. simpl.
    rewrite (body_characters_cons raw body), (body_actions_cons raw body).
    now rewrite !app_assoc.
Qed.

(** The scenes already sealed are a prefix that the loop never reads. *)
Lemma fold_parse_line_prefix (lines : list str) (scenes : list Scene) (cur : Scene) :
  fold_left parse_line lines (scenes, cur) =
  (scenes ++ fst (fold_left parse_line lines ([], cur)),
   snd (fold_left parse_line lines ([], cur))).
Proof.
  revert scenes cur. induction lines as [|raw lines IH]; intros scenes cur.
  - simpl. now rewrite app_nil_r.
  - simpl fold_left. destruct (is_scene_line raw) eqn:H.
    + rewrite !(parse_line_scene _ _ _ H).
      rewrite IH. rewrite (IH (seal [] cur)).
      simpl. unfold seal. destruct (truthy (description cur)); simpl.
      * now rewrite <- app_assoc.
      * reflexivity.
    + rewrite !(parse_line_other _ _ _ H). apply IH.
Qed.

Lemma seal_app (scenes more : list Scene) (cur : Scene) :
  seal (scenes ++ more) cur = scenes ++ seal more cur.
Proof.
  unfold seal. destruct (truthy (description cur)); [|reflexivity].
  now rewrite app_assoc.
Qed.

Lemma parse_lines_from_prefix (lines : list str) (scenes : list Scene) (cur : Scene) :
  parse_lines_from (scenes, cur) lines = scenes ++ parse_lines_from ([], cur) lines.
Proof.
  unfold parse_lines_from. rewrite fold_parse_line_prefix.
  destruct (fold_left parse_line lines ([], cur)) as [out c]. simpl.
  apply seal_app.
Qed.

(** Parsing [pre] and then more lines, in terms of the state after [pre]. *)
Lemma parse_lines_from_app (pre lines : list str) (st : parser_state) :
  parse_lines_from st (pre ++ lines) =
  parse_lines_from (fold_left parse_line pre st) lines.
Proof.
  unfold parse_lines_from. now rewrite fold_left_app.
Qed.

(** What is parsed from a [SCENE:] line on does not depend on what came
    before, and what came before is sealed as if the text ended there. *)
Lemma parse_lines_from_marker (st : parser_state) (marker : str) (lines : list str) :
  is_scene_line marker = true ->
  parse_lines_from st (marker :: lines) =
  parse_lines_from st [] ++
  parse_lines_from
    ([], {| description := scene_description marker;
            characters := []; actions := [] |}) lines.
Proof.
  intros H. destruct st as [scenes cur].
  unfold parse_lines_from at 1. simpl fold_left.
  rewrite (parse_line_scene _ _ _ H).
  change (parse_lines_from (scenes, cur) []) with (seal scenes cur).
  rewrite <- parse_lines_from_prefix. reflexivity.
Qed.

Lemma parse_lines_marker (marker : str) (lines : list str) :
  is_scene_line marker = true ->
  parse_lines (marker :: lines) =
  parse_lines_from
    ([], {| description := scene_description marker;
            characters := []; actions := [] |}) lines.
Proof.
  intros H. unfold parse_lines. now rewrite (parse_lines_from_marker _ _ _ H).
Qed.

Lemma parse_lines_app_marker (pre : list str) (marker : str) (lines : list str) :
  is_scene_line marker = true ->
  parse_lines (pre ++ marker :: lines) =
  parse_lines pre ++ parse_lines (marker :: lines).
Proof.
  intros H. unfold parse_lines at 1. rewrite parse_lines_from_app.
  rewrite (parse_lines_from_marker _ _ _ H).
  rewrite (parse_lines_marker _ _ H).
  reflexivity.
Qed.

(** The scene of a [SCENE:] line and of the lines up to the next one. *)
Lemma parse_lines_block (marker : str) (body rest : list str) :
  is_scene_line marker = true ->
  Forall not_scene_line body ->
  starts_at_marker rest ->
  parse_lines (marker :: body ++ rest) = block marker body ++ parse_lines rest.
Proof.
  intros Hm Hb Hr. rewrite (parse_lines_marker _ _ Hm).
  rewrite parse_lines_from_app, (fold_parse_line_body _ _ _ Hb). simpl.
  destruct rest as [|next rest].
  - unfold parse_lines_from, block, seal. simpl.
    destruct (truthy (scene_description marker)); reflexivity.
  - simpl in Hr. rewrite (parse_lines_from_marker _ _ _ Hr).
    rewrite (parse_lines_marker _ _ Hr).
    unfold parse_lines_from at 1, block, seal. simpl.
    destruct (truthy (scene_description marker)); reflexivity.
Qed.

End ParserLoop.

(** ** What the parser returns *)

Section ParserResults.

Local Open Scope list_scope.

(** A current scene without description is never sealed, so what it has
    collected does not show in the result. *)
Lemma parse_lines_from_unsealed (lines : list str) (cur1 cur2 : Scene) :
  description cur1 = [] -> description cur2 = [] ->
  parse_lines_from ([], cur1) lines = parse_lines_from ([], cur2) lines.
Proof.
  revert cur1 cur2. induction lines as [|raw lines IH]; intros cur1 cur2 H1 H2.
  - unfold parse_lines_from, seal. simpl. now rewrite H1, H2.
  - destruct (is_scene_line raw) eqn:H.
    + rewrite !(parse_lines_from_marker _ _ _ H).
      unfold parse_lines_from at 1 3, seal. simpl. now rewrite H1, H2.
    + unfold parse_lines_from. simpl fold_left.
      rewrite !(parse_line_other _ _ _ H).
      apply IH; assumption.
Qed.

Lemma parse_lines_preamble (pre rest : list str) :
  Forall not_scene_line pre ->
  parse_lines (pre ++ rest) = parse_lines rest.
Proof.
  intros H. unfold parse_lines at 1. rewrite parse_lines_from_app.
  rewrite (fold_parse_line_body _ _ _ H).
  now apply parse_lines_from_unsealed.
Qed.

(** The lines of a split hold no separator, and joining them gives the
    text back. *)
Lemma split_no_sep (sep : char) (s : str) :
  Forall (fun l => ~ In sep l) (split sep s).
Proof.
  induction s as [|c s IH]; simpl.
  - constructor; [tauto | constructor].
  - destruct (c =? sep)%N eqn:E.
    + constructor; [tauto | exact IH].
    + destruct (split sep s) as [|l ls]; constructor.
      * simpl. intros [->|[]]. now rewrite N.eqb_refl in E.
      * constructor.
      * inversion IH as [|? ? Hl Hls]; subst. simpl. intros [->|Hin].
        -- now rewrite N.eqb_refl in E.
        -- now apply Hl.
      * now inversion IH.
Qed.

Lemma split_app_sep (sep : char) (l s : str) :
  ~ In sep l -> split sep (l ++ sep :: s) = l :: split sep s.
Proof.
  induction l as [|c l IH]; intros H; simpl.
  - now rewrite N.eqb_refl.
  - destruct (c =? sep)%N eqn:E.
    + apply N.eqb_eq in E. subst. exfalso. apply H. now left.
    + rewrite IH; [reflexivity|]. intros Hin. apply H. now right.
Qed.

Lemma split_line (sep : char) (l : str) :
  ~ In sep l -> split sep l = [l].
Proof.
  induction l as [|c l IH]; intros H; simpl; [reflexivity|].
  destruct (c =? sep)%N eqn:E.
  - apply N.eqb_eq in E. subst. exfalso. apply H. now left.
  - rewrite IH; [reflexivity|]. intros Hin. apply H. now right.
Qed.

Lemma split_join (sep : char) (lines : list str) :
  lines <> [] ->
  Forall (fun l => ~ In sep l) lines ->
  split sep (join [sep] lines) = lines.
Proof.
  intros Hne H. revert Hne.
  induction H as [|l lines Hl Hls IH]; intros Hne; [now elim Hne|].
  destruct lines as [|l' lines'].
  - simpl. now apply split_line.
  - change (join [sep] (l :: l' :: lines'))
      with (l ++ sep :: join [sep] (l' :: lines')).
    rewrite (split_app_sep _ _ _ Hl), IH; [reflexivity | discriminate].
Qed.

(** Parsing the text made of given lines is parsing these lines. *)
Lemma parse_script_join (lines : list str) :
  Forall (fun l => ~ In newline l) lines ->
  _parse_script (join [newline] lines) = parse_lines lines.
Proof.
  intros H. rewrite parse_script_lines. destruct lines as [|l lines].
  - reflexivity.
  - rewrite split_join; [reflexivity | discriminate | exact H].
Qed.

(** Sealing with or without the current scene: the count. *)
Lemma length_parse_lines_from (lines : list str) (st : parser_state) :
  List.length (parse_lines_from st lines) =
  (List.length (parse_lines_from st []) + List.length (filter opens_scene lines))%nat.
Proof.
  revert st. induction lines as [|raw lines IH]; intros [scenes cur].
  - simpl. lia.
  - destruct (is_scene_line raw) eqn:H.
    + rewrite (parse_lines_from_marker _ _ _ H), length_app, IH.
      simpl filter. unfold opens_scene. rewrite H. simpl andb.
      unfold parse_lines_from at 2, seal. simpl.
      destruct (truthy (scene_description raw)); simpl; lia.
    + unfold parse_lines_from at 1. simpl fold_left.
      rewrite (parse_line_other _ _ _ H).
      match goal with
      | |- context [fold_left parse_line lines ?s] =>
          change (let '(a, b) := fold_left parse_line lines s in seal a b)
            with (parse_lines_from s lines)
      end.
      rewrite IH. simpl filter. unfold opens_scene at 2. rewrite H. simpl andb.
      cbv iota. unfold parse_lines_from, seal. simpl.
      destruct (truthy (description cur)); [|reflexivity].
      now rewrite !length_app.
Qed.

Lemma Forall_seal (P : Scene -> Prop) (scenes : list Scene) (cur : Scene) :
  Forall P scenes -> (truthy (description cur) = true -> P cur) ->
  Forall P (seal scenes cur).
Proof.
  intros Hs Hc. unfold seal. destruct (truthy (description cur)); [|exact Hs].
  apply Forall_app. split; [exact Hs|]. constructor; [now apply Hc | constructor].
Qed.

Lemma truthy_not_nil (s : str) : truthy s = true -> s <> [].
Proof. destruct s; [discriminate | discriminate]. Qed.

Lemma described_parse_lines_from (lines : list str) (st : parser_state) :
  Forall (fun scene => description scene <> []) (fst st) ->
  Forall (fun scene => description scene <> []) (parse_lines_from st lines).
Proof.
  revert st. induction lines as [|raw lines IH]; intros [scenes cur] H.
  - simpl in *. apply Forall_seal; [exact H | apply truthy_not_nil].
  - unfold parse_lines_from. simpl fold_left.
    match goal with
    | |- context [fold_left parse_line lines ?s] =>
        change (let '(a, b) := fold_left parse_line lines s in seal a b)
          with (parse_lines_from s lines)
    end.
    apply IH. destruct (is_scene_line raw) eqn:Hr.
    + rewrite (parse_line_scene _ _ _ Hr). simpl in *.
      apply Forall_seal; [exact H | apply truthy_not_nil].
    + rewrite (parse_line_other _ _ _ Hr). exact H.
Qed.

End ParserResults.

(** ** The claims about the parser *)

Section ParserClaims.

Local Open Scope list_scope.

Lemma span_scene_lines (lines : list str) :
  exists body rest,
    lines = body ++ rest /\ Forall not_scene_line body /\ starts_at_marker rest.
Proof.
  induction lines as [|raw lines (body & rest & E & Hb & Hr)].
  - exists [], []. repeat split. constructor.
  - destruct (is_scene_line raw) eqn:H.
    + exists [], (raw :: lines). repeat split; [constructor | exact H].
    + exists (raw :: body), rest. subst lines. repeat split.
      * now constructor.
      * exact Hr.
Qed.

Lemma block_singleton (marker : str) (body : list str) (scene : Scene) :
  In scene (block marker body) ->
  scene = {| description := scene_description marker;
             characters := body_characters body;
             actions := body_actions body |}.
Proof.
  unfold block. destruct (truthy (scene_description marker)); simpl.
  - intros [<-|[]]. reflexivity.
  - intros [].
Qed.

(** Every scene of the result is the block of some [SCENE:] line. *)
Lemma parse_lines_scene_origin (n : nat) :
  forall lines scene,
    (List.length lines <= n)%nat ->
    In scene (parse_lines lines) ->
    exists pre marker body rest,
      lines = pre ++ marker :: body ++ rest
      /\ is_scene_line marker = true
      /\ Forall not_scene_line body
      /\ starts_at_marker rest
      /\ scene = {| description := scene_description marker;
                    characters := body_characters body;
                    actions := body_actions body |}.
Proof.
  induction n as [|n IH]; intros lines scene Hlen Hin.
  - destruct lines; [|simpl in Hlen; lia]. destruct Hin.
  - destruct (span_scene_lines lines) as (body0 & rest0 & E0 & Hb0 & Hr0).
    subst lines. rewrite (parse_lines_preamble _ _ Hb0) in Hin.
    destruct rest0 as [|marker tail]; [destruct Hin|]. simpl in Hr0.
    destruct (span_scene_lines tail) as (body1 & rest1 & E1 & Hb1 & Hr1).
    subst tail. rewrite (parse_lines_block _ _ _ Hr0 Hb1 Hr1) in Hin.
    apply in_app_or in Hin. destruct Hin as [Hin|Hin].
    + exists body0, marker, body1, rest1.
      repeat split; try assumption. now apply block_singleton.
    + apply IH in Hin.
      * destruct Hin as (pre & m & body & rest & E & Hm & Hb & Hr & Hs).
        exists (body0 ++ marker :: body1 ++ pre), m, body, rest.
        repeat split; try assumption.
        rewrite E. rewrite <- !app_assoc. simpl. now rewrite <- !app_assoc.
      * rewrite !length_app in Hlen. simpl in Hlen.
        rewrite !length_app in Hlen. lia.
Qed.

(** C3: the parser returns as many scenes as the text has lines that, once
    trimmed, start with [SCENE:] and have something left after the marker
    once that is trimmed too; and no scene it returns has an empty
    description. *)
Theorem parse_script_scene_count (script : str) :
  List.length (_parse_script script) =
  List.length (filter opens_scene (split newline script))
  /\ Forall (fun scene => description scene <> []) (_parse_script script).
Proof.
  rewrite parse_script_lines. unfold parse_lines. split.
  - rewrite length_parse_lines_from. reflexivity.
  - apply described_parse_lines_from. constructor.
Qed.

(** C4: cut the lines of the text at any [SCENE:] line [marker], with
    [body] the lines up to the next [SCENE:] line (or the end).  Then the
    result is the scenes of the lines before, the scene of [marker] if its
    description is not empty, and the scenes of the lines after; the scene
    of [marker] has as actions exactly the action lines of [body], trimmed,
    in line order.  And every scene of the result is the scene of such a
    marker and body. *)
Theorem parse_script_actions_by_block (script : str) :
  (forall pre marker body rest,
      split newline script = pre ++ marker :: body ++ rest ->
      is_scene_line marker = true ->
      Forall not_scene_line body ->
      starts_at_marker rest ->
      _parse_script script =
      parse_lines pre ++ block marker body ++ parse_lines rest)
  /\ (forall scene,
         In scene (_parse_script script) ->
         exists pre marker body rest,
           split newline script = pre ++ marker :: body ++ rest
           /\ is_scene_line marker = true
           /\ Forall not_scene_line body
           /\ starts_at_marker rest
           /\ actions scene = map strip (filter is_action_line body)
           /\ scene = {| description := scene_description marker;
                         characters := body_characters body;
                         actions := body_actions body |}).
Proof.
  rewrite parse_script_lines. split.
  - intros pre marker body rest E Hm Hb Hr. rewrite E.
    rewrite (parse_lines_app_marker _ _ _ Hm).
    now rewrite (parse_lines_block _ _ _ Hm Hb Hr).
  - intros scene Hin.
    destruct (parse_lines_scene_origin _ _ _ (le_n _) Hin)
      as (pre & m & body & rest & E & Hm & Hb & Hr & Hs).
    exists pre, m, body, rest. repeat split; try assumption.
    now rewrite Hs.
Qed.

(** C8: lines before the first [SCENE:] line leave no trace: the parser
    returns what it returns on the remaining lines alone, that is on the
    text without them. *)
Theorem parse_script_drops_preamble (script : str) (pre rest : list str) :
  split newline script = pre ++ rest ->
  Forall not_scene_line pre ->
  _parse_script script = parse_lines rest
  /\ _parse_script script = _parse_script (join [newline] rest).
Proof.
  intros E Hpre.
  assert (R : _parse_script script = parse_lines rest).
  { rewrite parse_script_lines, E. now apply parse_lines_preamble. }
  split; [exact R|]. rewrite R. symmetry. apply parse_script_join.
  pose proof (split_no_sep newline script) as H. rewrite E in H.
  apply Forall_app in H. tauto.
Qed.

(** C10: after a [SCENE:] line with nothing behind the marker, the lines up
    to the next [SCENE:] line go to a current scene without description;
    the result holds the scenes of the lines before and of the lines after,
    and nothing of these lines. *)
Theorem parse_script_empty_scene_body (script : str)
    (pre : list str) (marker : str) (body rest : list str) :
  split newline script = pre ++ marker :: body ++ rest ->
  is_scene_line marker = true ->
  scene_description marker = [] ->
  Forall not_scene_line body ->
  fold_left parse_line (pre ++ marker :: body) ([], initial_scene) =
  (parse_lines pre,
   {| description := [];
      characters := body_characters body;
      actions := body_actions body |})
  /\ _parse_script script = parse_lines pre ++ parse_lines rest.
Proof.
  intros E Hm Hd Hb.
  assert (F : fold_left parse_line (pre ++ marker :: body) ([], initial_scene) =
              (parse_lines pre,
               {| description := [];
                  characters := body_characters body;
                  actions := body_actions body |})).
  { rewrite fold_left_app. simpl fold_left.
    destruct (fold_left parse_line pre ([], initial_scene)) as [scenes cur] eqn:Ep.
    rewrite (parse_line_scene _ _ _ Hm), (fold_parse_line_body _ _ _ Hb).
    simpl. rewrite Hd. unfold parse_lines, parse_lines_from. now rewrite Ep. }
  split; [exact F|].
  rewrite parse_script_lines, E.
  change (pre ++ marker :: body ++ rest) with (pre ++ (marker :: body) ++ rest).
  rewrite app_assoc. unfold parse_lines at 1.
  rewrite parse_lines_from_app, F, parse_lines_from_prefix.
  f_equal. now apply parse_lines_from_unsealed.
Qed.

End ParserClaims.

(** ** Timing of a clip *)

Section Timing.









End Timing.

(** ** Logs *)

Section Logs.

Lemma image_outcomes_app (l1 l2 : list event) :
  image_outcomes (l1 ++ l2) = image_outcomes l1 ++ image_outcomes l2.
Proof.
  induction l1 as [|e l1 IH]; [reflexivity|].
  destruct e; simpl; now rewrite IH.
Qed.

Lemma image_requests_app (l1 l2 : list event) :
  image_requests (l1 ++ l2) = image_requests l1 ++ image_requests l2.
Proof.
  induction l1 as [|e l1 IH]; [reflexivity|].
  destruct e; simpl; now rewrite IH.
Qed.

Lemma rendered_app (l1 l2 : list event) :
  rendered (l1 ++ l2) = rendered l1 ++ rendered l2.
Proof.
  induction l1 as [|e l1 IH]; [reflexivity|].
  destruct e; simpl; now rewrite IH.
Qed.

Lemma printed_app (l1 l2 : list event) :
  printed (l1 ++ l2) = printed l1 ++ printed l2.
Proof.
  induction l1 as [|e l1 IH]; [reflexivity|].
  destruct e; simpl; now rewrite IH.
Qed.

End Logs.

(** * Further facts *)

(** ** Trimmed strings *)

Section Trimmed.

Local Open Scope list_scope.

Lemma rstrip_idem (s : str) : rstrip (rstrip s) = rstrip s.
Proof.
  induction s as [|c s IH]; [reflexivity|].
  simpl. destruct (isspace c && is_empty (rstrip s)) eqn:E; [reflexivity|].
  simpl. now rewrite IH, E.
Qed.

Lemma lstrip_head (s : str) :
  lstrip s = [] \/ exists c t, lstrip s = c :: t /\ isspace c = false.
Proof.
  induction s as [|c s IH]; [now left|].
  simpl. destruct (isspace c) eqn:E; [exact IH|].
  right. now exists c, s.
Qed.

Lemma lstrip_rstrip_lstrip (s : str) :
  lstrip (rstrip (lstrip s)) = rstrip (lstrip s).
Proof.
  destruct (lstrip_head s) as [E | (c & t & E & Hc)]; rewrite E.
  - reflexivity.
  - simpl. rewrite Hc. simpl. now rewrite Hc.
Qed.

Lemma strip_idem (s : str) : strip (strip s) = strip s.
Proof.
  unfold strip. now rewrite lstrip_rstrip_lstrip, rstrip_idem.
Qed.

Lemma In_lstrip (c : char) (s : str) : In c (lstrip s) -> In c s.
Proof.
  induction s as [|a s IH]; [tauto|].
  simpl. destruct (isspace a); [|tauto]. intros H. right. now apply IH.
Qed.

Lemma In_rstrip (c : char) (s : str) : In c (rstrip s) -> In c s.
Proof.
  induction s as [|a s IH]; [tauto|].
  simpl. destruct (isspace a && is_empty (rstrip s)); [intros []|].
  intros [H|H]; [now left | right; now apply IH].
Qed.

Lemma In_strip (c : char) (s : str) : In c (strip s) -> In c s.
Proof.
  intros H. now apply In_lstrip, In_rstrip.
Qed.

Lemma eqb_eq (a b : str) : eqb a b = true <-> a = b.
Proof.
  revert b. induction a as [|x a IH]; intros [|y b]; simpl;
    try (split; [discriminate | discriminate]).
  - tauto.
  - rewrite andb_true_iff, N.eqb_eq, IH. split.
    + intros [-> ->]. reflexivity.
    + intros H. inversion H. tauto.
Qed.

Lemma startswith_app (p s : str) : startswith (p ++ s) p = true.
Proof.
  induction p as [|a p IH]; [now destruct s|].
  simpl. now rewrite N.eqb_refl.
Qed.

End Trimmed.

(** ** More on what the parser returns *)

Section ParserMore.

Local Open Scope list_scope.

Lemma ignored_not_scene (raw : str) :
  is_ignored_line raw = true -> is_scene_line raw = false.
Proof.
  unfold is_ignored_line, is_scene_line.
  destruct (strip raw) as [|c l]; [reflexivity|]. simpl.
  destruct (N.eqb_spec c 35) as [->|]; [reflexivity|].
  destruct (N.eqb_spec c 47) as [->|]; [reflexivity|]. discriminate.
Qed.

Lemma parse_line_ignored (st : parser_state) (raw : str) :
  is_ignored_line raw = true -> parse_line st raw = st.
Proof.
  intros H. unfold parse_line. pose proof (ignored_not_scene raw H) as Hs.
  unfold is_ignored_line, is_scene_line in *.
  destruct (strip raw) as [|c l] eqn:E; [reflexivity|].
  cbn [truthy is_empty negb]. unfold dispatch. destruct st as [scenes cur].
  rewrite Hs.
  cbn [is_empty orb] in H.
  assert (Hc : startswith (c :: l) (lit "CHARACTER:") = false).
  { simpl in H |- *.
    destruct (N.eqb_spec c 35) as [->|]; [reflexivity|].
    destruct (N.eqb_spec c 47) as [->|]; [reflexivity|]. discriminate. }
  rewrite Hc, H. reflexivity.
Qed.

Lemma fold_parse_line_filter_ignored (lines : list str) (st : parser_state) :
  fold_left parse_line lines st =
  fold_left parse_line
    (filter (fun raw => negb (is_ignored_line raw)) lines) st.
Proof.
  revert st. induction lines as [|raw lines IH]; intros st; [reflexivity|].
  simpl. destruct (is_ignored_line raw) eqn:H; simpl.
  - rewrite (parse_line_ignored st raw H). apply IH.
  - apply IH.
Qed.

(** X3: blank lines and lines that start with [#] or [//] count for
    nothing, wherever they stand: the parser returns what it returns on the
    other lines alone. *)
Theorem parse_script_skips_comments (script : str) :
  _parse_script script =
  parse_lines
    (filter (fun raw => negb (is_ignored_line raw)) (split newline script)).
Proof.
  rewrite parse_script_lines. unfold parse_lines, parse_lines_from.
  now rewrite fold_parse_line_filter_ignored.
Qed.

(** X4: the indentation of the lines and the spaces at their end count for
    nothing: two texts whose lines are the same once trimmed give the same
    scenes. *)
Theorem parse_script_ignores_indentation (script1 script2 : str) :
  map strip (split newline script1) = map strip (split newline script2) ->
  _parse_script script1 = _parse_script script2.
Proof.
  intros H. rewrite !parse_script_lines.
  apply parse_lines_from_nonblank. unfold nonblank. now rewrite H.
Qed.

Lemma descriptions_parse_lines_from (lines : list str) (st : parser_state) :
  map description (parse_lines_from st lines) =
  map description (parse_lines_from st [])
  ++ map scene_description (filter opens_scene lines).
Proof.
  revert st. induction lines as [|raw lines IH]; intros [scenes cur].
  - simpl. now rewrite app_nil_r.
  - destruct (is_scene_line raw) eqn:H.
    + rewrite (parse_lines_from_marker _ _ _ H), map_app, IH.
      simpl filter. unfold opens_scene at 2. rewrite H. simpl andb.
      unfold parse_lines_from at 2, seal. simpl.
      destruct (truthy (scene_description raw)); reflexivity.
    + unfold parse_lines_from at 1. simpl fold_left.
      rewrite (parse_line_other _ _ _ H).
      match goal with
      | |- context [fold_left parse_line lines ?s] =>
          change (let '(a, b) := fold_left parse_line lines s in seal a b)
            with (parse_lines_from s lines)
      end.
      rewrite IH. simpl filter. unfold opens_scene at 2. rewrite H. simpl andb.
      cbv iota. unfold parse_lines_from, seal. simpl.
      destruct (truthy (description cur)); [|reflexivity].
      now rewrite !map_app.
Qed.

(** X2: the descriptions of the scenes returned are, in order, the trimmed
    remainders of the [SCENE:] lines of the text that have one. *)
Theorem parse_script_descriptions (script : str) :
  map description (_parse_script script) =
  map scene_description (filter opens_scene (split newline script)).
Proof.
  rewrite parse_script_lines. unfold parse_lines.
  now rewrite descriptions_parse_lines_from.
Qed.

Lemma parse_lines_nil_iff (lines : list str) :
  parse_lines lines = [] <-> filter opens_scene lines = [].
Proof.
  pose proof (length_parse_lines_from lines ([], initial_scene)) as H.
  fold (parse_lines lines) in H. simpl in H.
  split; intros E.
  - rewrite E in H. simpl in H.
    destruct (filter opens_scene lines); [reflexivity | simpl in H; lia].
  - rewrite E in H. simpl in H.
    destruct (parse_lines lines); [reflexivity | simpl in H; lia].
Qed.

Lemma action_line_clean (raw : str) :
  is_action_line raw = true ->
  strip raw <> []
  /\ strip (strip raw) = strip raw
  /\ startswith (strip raw) (lit "SCENE:") = false
  /\ startswith (strip raw) (lit "CHARACTER:") = false
  /\ startswith (strip raw) (lit "#") = false
  /\ startswith (strip raw) (lit "//") = false.
Proof.
  unfold is_action_line. intros H.
  repeat (apply andb_true_iff in H; destruct H as [H ?]).
  repeat match goal with
         | H : negb _ = true |- _ => apply negb_true_iff in H
         end.
  match goal with
  | H : orb _ _ = false |- _ => apply orb_false_iff in H; destruct H
  end.
  repeat split; try assumption.
  - now apply truthy_not_nil.
  - apply strip_idem.
Qed.

(** X1: every scene returned has a description that is trimmed and not
    empty; each of its actions is a trimmed line of the text, not empty,
    that starts with none of [SCENE:], [CHARACTER:], [#], [//]; each of its
    character entries is trimmed. *)
Theorem parsed_scenes_are_clean (script : str) :
  Forall
    (fun scene =>
       description scene <> []
       /\ strip (description scene) = description scene
       /\ Forall (fun action =>
                    action <> []
                    /\ strip action = action
                    /\ In action (map strip (split newline script))
                    /\ ~ In newline action
                    /\ startswith action (lit "SCENE:") = false
                    /\ startswith action (lit "CHARACTER:") = false
                    /\ startswith action (lit "#") = false
                    /\ startswith action (lit "//") = false)
                 (actions scene)
       /\ Forall (fun entry => strip entry = entry) (characters scene))
    (_parse_script script).
Proof.
  pose proof (described_parse_lines_from (split newline script)
                ([], initial_scene) (Forall_nil _)) as Hd.
  fold (parse_lines (split newline script)) in Hd.
  rewrite <- parse_script_lines in Hd.
  rewrite Forall_forall in Hd |- *. intros scene Hin.
  split; [now apply Hd|].
  rewrite parse_script_lines in Hin.
  destruct (parse_lines_scene_origin _ _ _ (le_n _) Hin)
    as (pre & m & body & rest & E & Hm & Hb & Hr & ->).
  cbn [description actions characters].
  split; [apply strip_idem|]. split.
  - unfold body_actions. rewrite Forall_forall. intros action Ha.
    apply in_map_iff in Ha. destruct Ha as (raw & <- & Hraw).
    apply filter_In in Hraw. destruct Hraw as [Hraw Hact].
    destruct (action_line_clean raw Hact) as (H1 & H2 & H3 & H4 & H5 & H6).
    assert (Hl : In raw (split newline script)).
    { rewrite E. apply in_or_app. right. right.
      apply in_or_app. now left. }
    repeat split; try assumption.
    + now apply in_map.
    + intros Hn. apply In_strip in Hn.
      pose proof (split_no_sep newline script) as Hs.
      rewrite Forall_forall in Hs. now apply (Hs raw Hl).
  - unfold body_characters. rewrite Forall_forall. intros entry He.
    apply in_map_iff in He. destruct He as (raw & <- & _).
    apply strip_idem.
Qed.

Lemma split_app_newline (s1 s2 : str) :
  split newline (s1 ++ newline :: s2) = split newline s1 ++ split newline s2.
Proof.
  induction s1 as [|c s1 IH]; [reflexivity|].
  simpl. rewrite IH. destruct (c =? newline)%N; [reflexivity|].
  destruct (split newline s1) as [|l ls] eqn:E;
    [now apply split_not_nil in E | reflexivity].
Qed.

Lemma blank_lines_nonblank (blanks : list str) :
  Forall (fun l => strip l = []) blanks -> nonblank blanks = [].
Proof.
  induction 1 as [|l blanks Hl _ IH]; [reflexivity|].
  now rewrite nonblank_cons_blank.
Qed.

Lemma nonblank_app (l1 l2 : list str) :
  nonblank (l1 ++ l2) = nonblank l1 ++ nonblank l2.
Proof.
  unfold nonblank. now rewrite map_app, filter_app.
Qed.

(** X5: a text followed by a second text that begins, after blank lines if
    any, with a [SCENE:] line (or has only blank lines) gives the scenes of
    the first followed by the scenes of the second. *)
Theorem parse_script_concat (script1 script2 : str)
    (blanks rest : list str) :
  split newline script2 = blanks ++ rest ->
  Forall (fun l => strip l = []) blanks ->
  starts_at_marker rest ->
  _parse_script (script1 ++ newline :: script2) =
  _parse_script script1 ++ _parse_script script2.
Proof.
  intros E Hb Hr. rewrite !parse_script_lines, split_app_newline, E.
  assert (B : forall pre, parse_lines (pre ++ blanks ++ rest) =
                          parse_lines (pre ++ rest)).
  { intros pre. apply parse_lines_from_nonblank.
    now rewrite !nonblank_app, (blank_lines_nonblank _ Hb). }
  rewrite (B (split newline script1)).
  specialize (B []). simpl app in B. rewrite B.
  destruct rest as [|m rest].
  - now rewrite !app_nil_r.
  - simpl in Hr. now apply parse_lines_app_marker.
Qed.

(** A [CHARACTER:] line changes neither the descriptions nor the actions
    of what the parser returns. *)
Lemma parse_line_same_timing (st1 st2 : parser_state) (raw : str) :
  Forall2 same_timing (fst st1) (fst st2) ->
  same_timing (snd st1) (snd st2) ->
  Forall2 same_timing (fst (parse_line st1 raw)) (fst (parse_line st2 raw))
  /\ same_timing (snd (parse_line st1 raw)) (snd (parse_line st2 raw)).
Proof.
  destruct st1 as [scenes1 cur1], st2 as [scenes2 cur2]. simpl.
  intros Hs [Hd Ha]. destruct (is_scene_line raw) eqn:H.
  - rewrite !(parse_line_scene _ _ _ H). simpl. split; [|now split].
    unfold seal. rewrite Hd. destruct (truthy (description cur2)); [|exact Hs].
    apply Forall2_app; [exact Hs|]. constructor; [now split | constructor].
  - rewrite !(parse_line_other _ _ _ H). simpl. split; [exact Hs|].
    split; simpl; [exact Hd | now rewrite Ha].
Qed.

Lemma fold_parse_line_same_timing (lines : list str) :
  forall st1 st2 : parser_state,
    Forall2 same_timing (fst st1) (fst st2) ->
    same_timing (snd st1) (snd st2) ->
    Forall2 same_timing (fst (fold_left parse_line lines st1))
                        (fst (fold_left parse_line lines st2))
    /\ same_timing (snd (fold_left parse_line lines st1))
                   (snd (fold_left parse_line lines st2)).
Proof.
  induction lines as [|raw lines IH]; intros st1 st2 Hs Hc; [now split|].
  simpl. destruct (parse_line_same_timing st1 st2 raw Hs Hc) as [Hs' Hc'].
  now apply IH.
Qed.

Lemma character_line_same_timing (st : parser_state) (raw : str) :
  is_character_line raw = true ->
  fst (parse_line st raw) = fst st
  /\ same_timing (snd (parse_line st raw)) (snd st).
Proof.
  intros H. destruct st as [scenes cur].
  unfold is_character_line in H. apply andb_true_iff in H.
  destruct H as [Hs Hc]. apply negb_true_iff in Hs.
  rewrite (parse_line_other _ _ _ Hs). simpl. split; [reflexivity|].
  split; simpl; [reflexivity|].
  unfold body_actions, is_action_line. simpl. rewrite Hc.
  rewrite andb_false_r. simpl. apply app_nil_r.
Qed.

Lemma same_timing_refl (scenes : list Scene) : Forall2 same_timing scenes scenes.
Proof.
  induction scenes; constructor; [now split | assumption].
Qed.

Lemma parse_lines_drop_character (pre : list str) (raw : str) (rest : list str) :
  is_character_line raw = true ->
  Forall2 same_timing (parse_lines (pre ++ raw :: rest))
                      (parse_lines (pre ++ rest)).
Proof.
  intros H. unfold parse_lines, parse_lines_from.
  rewrite !fold_left_app. simpl fold_left.
  set (st := fold_left parse_line pre ([], initial_scene)).
  destruct (character_line_same_timing st raw H) as [Hs Hc].
  destruct (fold_parse_line_same_timing rest (parse_line st raw) st) as [Fs Fc].
  - rewrite Hs. apply same_timing_refl.
  - exact Hc.
  - destruct (fold_left parse_line rest (parse_line st raw)) as [s1 c1].
    destruct (fold_left parse_line rest st) as [s2 c2]. simpl in Fs, Fc.
    unfold seal. destruct Fc as [Fd Fa]. rewrite Fd.
    destruct (truthy (description c2)); [|exact Fs].
    apply Forall2_app; [exact Fs|]. constructor; [now split | constructor].
Qed.

End ParserMore.

(** ** More on the timing of a clip *)

Section TimingMore.




End TimingMore.

(** ** The generator over any outside world *)

Section GeneratorFacts.

Variable World : Type.
Variable get_summary : World -> outcome status_summary * World.
Variable get_components : World -> outcome (list str) * World.
Variable post_and_save : str -> Z * Z -> World -> post_result * World.
Variable new_image_clip : str -> World -> outcome unit * World.
Variable new_text_clip : str -> Z * option Z -> World -> outcome unit * World.
Variable new_composite_clip :
  ImageClip -> list TextClip -> Z * Z -> World -> outcome unit * World.
Variable write_videofile :
  list CompositeVideoClip -> str -> Z -> World -> outcome unit * World.

Local Abbreviation down := (service_down get_summary get_components).
Local Abbreviation generate :=
  (generate_scene_image get_summary get_components post_and_save).
Local Abbreviation traced :=
  (traced_generate get_summary get_components post_and_save).
Local Abbreviation build :=
  (build_scene_clip new_image_clip new_text_clip new_composite_clip).
Local Abbreviation body :=
  (scene_body get_summary get_components post_and_save
     new_image_clip new_text_clip new_composite_clip).
Local Abbreviation iteration :=
  (scene_iteration get_summary get_components post_and_save
     new_image_clip new_text_clip new_composite_clip).
Local Abbreviation loop :=
  (scene_loop get_summary get_components post_and_save
     new_image_clip new_text_clip new_composite_clip).
Local Abbreviation steps_of :=
  (loop_steps get_summary get_components post_and_save
     new_image_clip new_text_clip new_composite_clip).
Local Abbreviation animate :=
  (create_animation get_summary get_components post_and_save
     new_image_clip new_text_clip new_composite_clip write_videofile).

Ltac unfold_run :=
  unfold bind, try_except, call, print, emit, ret, raise in *.

Lemma map_fst_combine {A B : Type} (xs : list A) :
  forall ys : list B,
    List.length ys = List.length xs -> map fst (combine xs ys) = xs.
Proof.
  induction xs as [|x xs IH]; intros [|y ys] H; simpl in *; try discriminate.
  - reflexivity.
  - now rewrite IH by lia.
Qed.

Lemma map_snd_combine {A B : Type} (xs : list A) :
  forall ys : list B,
    List.length ys = List.length xs -> map snd (combine xs ys) = ys.
Proof.
  induction xs as [|x xs IH]; intros [|y ys] H; simpl in *; try discriminate.
  - reflexivity.
  - now rewrite IH by lia.
Qed.

Lemma existsb_eqb_false (x : str) (xs : list str) :
  existsb (fun y => eqb y x) xs = false <-> ~ In x xs.
Proof.
  induction xs as [|y xs IH]; simpl; [tauto|].
  rewrite orb_false_iff, IH. split.
  - intros [Hy Hn] [->|Hin]; [|tauto].
    assert (eqb x x = true) by now apply eqb_eq. congruence.
  - intros H. split; [|tauto].
    destruct (eqb y x) eqn:E; [|reflexivity].
    apply eqb_eq in E. tauto.
Qed.

Lemma forallb_eqb_true (x : str) (xs : list str) :
  forallb (fun y => eqb y x) xs = true <-> Forall (fun y => y = x) xs.
Proof.
  rewrite forallb_forall, Forall_forall. split; intros H y Hy.
  - now apply eqb_eq, H.
  - now apply eqb_eq, H.
Qed.

(** What the API check makes of the answer of the status page. *)
Lemma api_ok_iff (summary : status_summary) :
  eqb (page_status summary) (lit "UP")
  && negb (existsb (fun impact => eqb impact (lit "MAJOROUTAGE"))
             (incident_impacts summary)) = true
  <-> page_status summary = lit "UP"
      /\ ~ In (lit "MAJOROUTAGE") (incident_impacts summary).
Proof.
  rewrite andb_true_iff, negb_true_iff, eqb_eq, existsb_eqb_false. tauto.
Qed.

(** X8: the two status checks never raise; they report the service as up
    exactly when the status page could be read, says [UP] and lists no
    incident of impact [MAJOROUTAGE], and the components could be read and
    are all [OPERATIONAL]; and when the first check fails the components
    are not even asked for. *)
Theorem service_up_iff (st : state World) :
  exists (b : bool) (st' : state World),
    down st = (Returned b, st')
    /\ (b = false <->
        exists summary w1 components w2,
          get_summary (world st) = (Returned summary, w1)
          /\ page_status summary = lit "UP"
          /\ ~ In (lit "MAJOROUTAGE") (incident_impacts summary)
          /\ get_components w1 = (Returned components, w2)
          /\ Forall (fun status => status = lit "OPERATIONAL") components)
    /\ ((~ exists summary w1,
            get_summary (world st) = (Returned summary, w1)
            /\ page_status summary = lit "UP"
            /\ ~ In (lit "MAJOROUTAGE") (incident_impacts summary)) ->
        b = true /\ world st' = snd (get_summary (world st))).
Proof.
  unfold service_down, check_api_status, check_components_status.
  unfold_run.
  destruct (get_summary (world st)) as [[summary|e] w1] eqn:Es; cbn [log world].
  - destruct (eqb (page_status summary) (lit "UP")
              && negb (existsb (fun impact => eqb impact (lit "MAJOROUTAGE"))
                         (incident_impacts summary))) eqn:Eok;
      cbn [negb log world].
    + apply api_ok_iff in Eok. destruct Eok as [Hup Hno].
      destruct (get_components w1) as [[components|e] w2] eqn:Ec;
        cbn [log world].
      * eexists _, _. split; [reflexivity|]. split.
        -- rewrite negb_false_iff, forallb_eqb_true. split.
           ++ intros Hall. exists summary, w1, components, w2. now repeat split.
           ++ intros (s' & w1' & c' & w2' & E1 & _ & _ & E2 & Hall).
              inversion E1; subst s' w1'. rewrite Ec in E2.
              now inversion E2; subst c' w2'.
        -- intros Hn. exfalso. apply Hn. now exists summary, w1.
      * eexists _, _. split; [reflexivity|]. split.
        -- split; [discriminate|].
           intros (s' & w1' & c' & w2' & E1 & _ & _ & E2 & _).
           inversion E1; subst s' w1'. rewrite Ec in E2. discriminate.
        -- intros Hn. exfalso. apply Hn. now exists summary, w1.
    + eexists _, _. split; [reflexivity|]. split.
      * split; [discriminate|].
        intros (s' & w1' & c' & w2' & E1 & Hup & Hno & _).
        inversion E1; subst s' w1'.
        assert (T : eqb (page_status summary) (lit "UP")
                    && negb (existsb
                               (fun impact => eqb impact (lit "MAJOROUTAGE"))
                               (incident_impacts summary)) = true)
          by now apply api_ok_iff.
        congruence.
      * intros _. now split.
  - eexists _, _. split; [reflexivity|]. split.
    + split; [discriminate|].
      intros (s' & w1' & c' & w2' & E1 & _). discriminate.
    + intros _. now split.
Qed.

(** The status checks write nothing to the log but their own lines. *)
Lemma service_down_trace (st : state World) :
  exists (b : bool) (st' : state World) (checks : list event),
    down st = (Returned b, st')
    /\ log st' = log st ++ checks
    /\ Forall check_event checks.
Proof.
  unfold service_down, check_api_status, check_components_status.
  unfold_run.
  assert (C1 : forall e, check_event
                 (Printed (lit "Failed to check API status: " ++ e)))
    by (intros e; exists e; now left).
  assert (C2 : forall e, check_event
                 (Printed (lit "Failed to check components status: " ++ e)))
    by (intros e; exists e; now right).
  destruct (get_summary (world st)) as [[summary|e] w1]; cbn [log world].
  - destruct (eqb (page_status summary) (lit "UP")
              && negb (existsb (fun impact => eqb impact (lit "MAJOROUTAGE"))
                         (incident_impacts summary))); cbn [negb log world].
    + destruct (get_components w1) as [[components|e] w2]; cbn [log world].
      * exists (negb (forallb (fun status => eqb status (lit "OPERATIONAL"))
                        components)).
        eexists _, []. split; [reflexivity|].
        cbn [log]. rewrite app_nil_r. now split.
      * eexists _, _, [_]. split; [reflexivity|]. cbn [log].
        split; [reflexivity|]. constructor; [apply C2 | constructor].
    + eexists _, _, []. split; [reflexivity|].
      cbn [log]. rewrite app_nil_r. now split.
  - eexists _, _, [_]. split; [reflexivity|]. cbn [log].
    split; [reflexivity|]. constructor; [apply C1 | constructor].
Qed.

(** X9: a call of [generate_scene_image] posts at most one request: none
    when the checks report the service down, and then it raises the
    service error; else one, for the description followed by the fixed
    style words and at the resolution given, and then it returns the path
    the image was saved at, or raises: with the prefix [Image generation
    failed: ] for a request error, unchanged for any other exception. *)
Theorem generate_posts_once (d : str) (resolution : Z * Z) (st : state World) :
  exists (b : bool) (st1 : state World) (checks : list event),
    down st = (Returned b, st1)
    /\ log st1 = log st ++ checks
    /\ Forall check_event checks
    /\ log (snd (generate d resolution st)) =
       log st1 ++ (if b then [] else [ImageRequested (prompt_of d) resolution])
    /\ (b = true ->
        generate d resolution st = (Raised service_unavailable_msg, st1))
    /\ (b = false ->
        world (snd (generate d resolution st)) =
        snd (post_and_save (prompt_of d) resolution (world st1))
        /\ fst (generate d resolution st) =
           match fst (post_and_save (prompt_of d) resolution (world st1)) with
           | Saved image_path => Returned image_path
           | RequestException e =>
               Raised (lit "Image generation failed: " ++ e)
           | OtherException e => Raised e
           end).
Proof.
  destruct (service_down_trace st) as (b & st1 & checks & Hd & Hl & Hc).
  exists b, st1, checks. split; [exact Hd|]. split; [exact Hl|].
  split; [exact Hc|].
  destruct (generate d resolution st) as [r st'] eqn:Eg. cbn [fst snd].
  unfold generate_scene_image, bind at 1 in Eg. rewrite Hd in Eg.
  fold (prompt_of d) in Eg. destruct b.
  - unfold raise in Eg. inversion Eg; subst r st'. rewrite app_nil_r.
    split; [reflexivity|]. split; [reflexivity | discriminate].
  - unfold_run. cbn [log world] in Eg.
    destruct (post_and_save (prompt_of d) resolution (world st1))
      as [[p|e|e] w2]; inversion Eg; subst r st'; cbn [fst snd log world];
      (split; [reflexivity|]); (split; [discriminate|]); intros _; now split.
Qed.

Lemma scene_errors_app (l1 l2 : list event) :
  scene_errors (l1 ++ l2) = scene_errors l1 ++ scene_errors l2.
Proof.
  unfold scene_errors. now rewrite printed_app, filter_app.
Qed.

Lemma closed_app (l1 l2 : list event) :
  closed (l1 ++ l2) = closed l1 ++ closed l2.
Proof.
  induction l1 as [|e l1 IH]; [reflexivity|].
  destruct e; simpl; now rewrite IH.
Qed.

Lemma final_closed_app (l1 l2 : list event) :
  final_closed (l1 ++ l2) = (final_closed l1 + final_closed l2)%nat.
Proof.
  induction l1 as [|e l1 IH]; [reflexivity|].
  destruct e; simpl; now rewrite IH.
Qed.

(** What the lines of the status checks are not. *)
Lemma check_events_quiet (checks : list event) :
  Forall check_event checks ->
  Forall loop_event checks
  /\ image_outcomes checks = []
  /\ image_requests checks = []
  /\ scene_errors checks = [].
Proof.
  induction 1 as [|e checks [msg [->| ->]] _ (IH1 & IH2 & IH3 & IH4)].
  - now repeat split.
  - repeat split; try assumption. constructor; [exact I | exact IH1].
  - repeat split; try assumption. constructor; [exact I | exact IH1].
Qed.

(** What the loop events are not. *)
Lemma loop_events_quiet (new : list event) :
  Forall loop_event new ->
  rendered new = [] /\ closed new = [] /\ final_closed new = 0%nat.
Proof.
  induction 1 as [|e new He _ (IH1 & IH2 & IH3)]; [now repeat split|].
  destruct e; simpl in He; try contradiction; now repeat split.
Qed.

Lemma close_all_trace (clips : list CompositeVideoClip) :
  forall st : state World,
    close_all clips st =
    (Returned tt,
     {| world := world st; log := log st ++ map ClipClosed clips |}).
Proof.
  induction clips as [|clip clips IH]; intros st.
  - simpl. unfold ret. rewrite app_nil_r. now destruct st.
  - cbn [close_all]. unfold bind, emit. rewrite IH. cbn [world log map].
    now rewrite <- app_assoc.
Qed.

Lemma render_tail_quiet (e : event) (timeline : list CompositeVideoClip) :
  image_outcomes (e :: map ClipClosed timeline ++ [FinalClosed]) =
  image_outcomes [e]
  /\ image_requests (e :: map ClipClosed timeline ++ [FinalClosed]) =
     image_requests [e]
  /\ scene_errors (e :: map ClipClosed timeline ++ [FinalClosed]) =
     scene_errors [e].
Proof.
  change (e :: map ClipClosed timeline ++ [FinalClosed])
    with ([e] ++ map ClipClosed timeline ++ [FinalClosed]).
  rewrite image_outcomes_app, image_requests_app, scene_errors_app.
  assert (T : image_outcomes (map ClipClosed timeline ++ [FinalClosed]) = []
              /\ image_requests (map ClipClosed timeline ++ [FinalClosed]) = []
              /\ scene_errors (map ClipClosed timeline ++ [FinalClosed]) = []).
  { induction timeline as [|clip timeline (IH1 & IH2 & IH3)];
      now repeat split. }
  destruct T as (-> & -> & ->). now rewrite !app_nil_r.
Qed.

(** One call of line 111, with all it writes to the log. *)
Lemma traced_trace (d : str) (resolution : Z * Z) (st : state World) :
  exists (b : bool) (checks : list event) (r : outcome str) (st' : state World),
    fst (down st) = Returned b
    /\ traced d resolution st = (r, st')
    /\ Forall check_event checks
    /\ log st' =
       log st ++ checks
       ++ (if b then [] else [ImageRequested (prompt_of d) resolution])
       ++ [Generated d r]
    /\ (b = true -> r = Raised service_unavailable_msg)
    /\ r = fst (generate d resolution st).
Proof.
  destruct (service_down_trace st) as (b & st1 & checks & Hd & Hl & Hc).
  destruct (generate d resolution st) as [r st'] eqn:Eg.
  exists b, checks, r. eexists.
  split; [now rewrite Hd|].
  split; [unfold traced_generate; rewrite Eg; reflexivity|].
  split; [exact Hc|]. cbn [log fst].
  unfold generate_scene_image, bind at 1 in Eg. rewrite Hd in Eg.
  fold (prompt_of d) in Eg. destruct b.
  - unfold raise in Eg. inversion Eg; subst r st'.
    rewrite Hl, <- app_assoc. now repeat split.
  - unfold_run. cbn [log world] in Eg.
    destruct (post_and_save (prompt_of d) resolution (world st1))
      as [[p|e|e] w2]; inversion Eg; subst r st'; cbn [log];
      rewrite Hl, <- !app_assoc;
      (split; [reflexivity|]); (split; [discriminate | reflexivity]).
Qed.

(** The inner loop writes nothing to the log, and what it returns are the
    overlays of [text_clips]. *)
Lemma text_clips_loop_runs (resolution : Z * Z) (indexed : list (Z * str)) :
  forall (acc : list TextClip) (st : state World),
  exists (r : outcome (list TextClip)) (st' : state World),
    text_clips_loop new_text_clip resolution indexed acc st = (r, st')
    /\ log st' = log st
    /\ (forall tcs,
           r = Returned tcs ->
           tcs = acc ++ map (fun ia => text_clip resolution (fst ia) (snd ia))
                            indexed).
Proof.
  induction indexed as [|[i action] indexed IH]; intros acc st.
  - exists (Returned acc), st. simpl. unfold ret. rewrite app_nil_r.
    repeat split. intros tcs E. now inversion E.
  - cbn [text_clips_loop]. unfold bind, invoke.
    destruct (new_text_clip action (fst resolution - 100, None) (world st))
      as [[u|e] w1].
    + destruct (IH (acc ++ [text_clip resolution i action])
                  {| world := w1; log := log st |})
        as (r & st' & Hrun & Hl & Hr).
      exists r, st'. rewrite Hrun. split; [reflexivity|].
      split; [exact Hl|]. intros tcs E. rewrite (Hr tcs E), <- app_assoc.
      reflexivity.
    + eexists _, _. split; [reflexivity|]. split; [reflexivity|].
      discriminate.
Qed.

(** The constructors write nothing to the log, and the clip they give, when
    none raises, is [scene_with_text]. *)
Lemma build_scene_clip_runs (scene : Scene) (p : str) (resolution : Z * Z)
    (st : state World) :
  exists (r : outcome CompositeVideoClip) (st' : state World),
    build scene p resolution st = (r, st')
    /\ log st' = log st
    /\ (forall clip, r = Returned clip ->
                     clip = scene_with_text scene p resolution).
Proof.
  unfold build_scene_clip, bind at 1, invoke at 1.
  destruct (new_image_clip p (world st)) as [[u|e] w1].
  - unfold bind at 1.
    destruct (text_clips_loop_runs resolution (enumerate (actions scene)) []
                {| world := w1; log := log st |})
      as (r & st1 & Hrun & Hl & Hr).
    rewrite Hrun. destruct r as [tcs|e].
    + specialize (Hr tcs eq_refl). simpl in Hr. subst tcs.
      unfold bind, invoke, ret.
      destruct (new_composite_clip _ _ resolution (world st1)) as [[u'|e] w2].
      * eexists _, _. split; [reflexivity|]. split; [exact Hl|].
        intros clip E. now inversion E.
      * eexists _, _. split; [reflexivity|]. split; [exact Hl|]. discriminate.
    + eexists _, _. split; [reflexivity|]. split; [exact Hl|]. discriminate.
  - eexists _, _. split; [reflexivity|]. split; [reflexivity|]. discriminate.
Qed.

(** One turn of the loop, with all it writes to the log. *)
Lemma scene_iteration_trace (scene : Scene) (resolution : Z * Z)
    (clips : list CompositeVideoClip) (st : state World) :
  exists (b : bool) (checks : list event) (g : outcome str)
         (r : outcome CompositeVideoClip) (st' : state World),
    fst (down st) = Returned b
    /\ Forall check_event checks
    /\ fst (body scene resolution st) = r
    /\ iteration scene resolution clips st =
       (Returned (clips ++ completed [r]), st')
    /\ log st' =
       log st ++ checks
       ++ (if b then []
           else [ImageRequested (prompt_of (description scene)) resolution])
       ++ [Generated (description scene) g]
       ++ map Printed (error_lines [r])
    /\ (b = true -> g = Raised service_unavailable_msg)
    /\ (forall e, g = Raised e -> r = Raised e)
    /\ (forall clip,
           r = Returned clip ->
           exists p, g = Returned p
                     /\ clip = scene_with_text scene p resolution)
    /\ g = fst (generate (description scene) resolution st).
Proof.
  destruct (traced_trace (description scene) resolution st)
    as (b & checks & g & st1 & Hb & Ht & Hc & Hl & Hdown & Hgen).
  exists b, checks, g.
  destruct g as [p|e].
  - destruct (build_scene_clip_runs scene p resolution st1)
      as (r & st2 & Hbuild & Hl2 & Hr).
    assert (Hbody : body scene resolution st = (r, st2)).
    { unfold scene_body, bind. now rewrite Ht. }
    exists r. unfold scene_iteration, try_except, bind at 1.
    rewrite Hbody. cbn [fst]. destruct r as [clip|e].
    + unfold ret. eexists. repeat split; try assumption.
      * cbn [completed error_lines map]. now rewrite Hl2, Hl, !app_nil_r.
      * discriminate.
      * intros clip' E. inversion E; subst clip'. exists p.
        split; [reflexivity | now apply Hr].
    + unfold bind, print, emit, ret. eexists. repeat split; try assumption.
      * cbn [completed]. now rewrite app_nil_r.
      * cbn [log error_lines map]. unfold error_line.
        now rewrite Hl2, Hl, <- !app_assoc.
      * discriminate.
      * discriminate.
  - assert (Hbody : body scene resolution st = (Raised e, st1)).
    { unfold scene_body, bind. now rewrite Ht. }
    exists (Raised e). unfold scene_iteration, try_except, bind at 1.
    rewrite Hbody. cbn [fst]. unfold bind, print, emit, ret.
    eexists. repeat split; try assumption.
    + cbn [completed]. now rewrite app_nil_r.
    + cbn [log error_lines map]. unfold error_line.
      now rewrite Hl, <- !app_assoc.
    + intros e' E. now inversion E.
    + discriminate.
Qed.

Lemma completed_app (r1 r2 : list (outcome CompositeVideoClip)) :
  completed (r1 ++ r2) = completed r1 ++ completed r2.
Proof.
  induction r1 as [|[c|e] r1 IH]; simpl; now rewrite ?IH.
Qed.

(** The loop, with all it writes to the log. *)
Lemma scene_loop_trace (resolution : Z * Z) (scenes : list Scene) :
  forall (clips : list CompositeVideoClip) (st : state World),
  exists (st' : state World) (new : list event) (gens : list (outcome str)),
    loop scenes resolution clips st =
    (Returned (clips
               ++ completed (map snd (steps_of scenes resolution clips st))),
     st')
    /\ List.length (steps_of scenes resolution clips st) = List.length scenes
    /\ List.length gens = List.length scenes
    /\ log st' = log st ++ new
    /\ image_outcomes new = combine (map description scenes) gens
    /\ Forall loop_event new
    /\ scene_errors new =
       error_lines (map snd (steps_of scenes resolution clips st))
    /\ (Forall (fun step => fst (down (fst step)) = Returned false)
               (steps_of scenes resolution clips st) ->
        image_requests new =
        map (fun scene => prompt_of (description scene)) scenes)
    /\ (Forall (fun step => fst (down (fst step)) = Returned true)
               (steps_of scenes resolution clips st) ->
        image_requests new = []
        /\ gens = map (fun _ => Raised service_unavailable_msg) scenes)
    /\ Forall2 (fun g r => forall e, g = Raised e -> r = Raised e)
               gens (map snd (steps_of scenes resolution clips st))
    /\ Forall2 (fun scene r =>
                  forall clip,
                    r = Returned clip ->
                    exists p, clip = scene_with_text scene p resolution)
               scenes (map snd (steps_of scenes resolution clips st))
    /\ Forall (fun g => exists d st0, g = fst (generate d resolution st0))
              gens.
Proof.
  induction scenes as [|scene scenes IH]; intros clips st.
  - exists st, [], []. simpl. unfold ret. rewrite !app_nil_r.
    repeat split; constructor.
  - destruct (scene_iteration_trace scene resolution clips st)
      as (b & checks & g & r & st1 & Hb & Hc & Hbody & Hiter & Hl & Hdown
          & Hg & Hr & Hgen).
    destruct (check_events_quiet checks Hc) as (Q1 & Q2 & Q3 & Q4).
    destruct (IH (clips ++ completed [r]) st1)
      as (st' & new & gens & Hrun & Hlen & Hglen & Hl' & Ho & Hev & Her
          & Hup & Hdn & Fg & Fs & FG).
    cbn [loop_steps scene_loop]. unfold bind at 1. rewrite Hiter, Hbody.
    set (steps := steps_of scenes resolution (clips ++ completed [r]) st1)
      in *.
    exists st'. eexists. exists (g :: gens).
    rewrite Hrun. cbn [map snd List.length combine description].
    split.
    { change (r :: map snd steps) with ([r] ++ map snd steps).
      now rewrite completed_app, <- app_assoc. }
    split; [now rewrite Hlen|]. split; [now rewrite Hglen|].
    split; [rewrite Hl', Hl, <- !app_assoc; reflexivity|].
    assert (P1 : image_outcomes
                   (if b then []
                    else [ImageRequested (prompt_of (description scene))
                            resolution]) = []) by now destruct b.
    assert (P2 : scene_errors
                   (if b then []
                    else [ImageRequested (prompt_of (description scene))
                            resolution]) = []) by now destruct b.
    assert (P3 : image_outcomes (map Printed (error_lines [r])) = [])
      by now destruct r.
    assert (P4 : image_requests (map Printed (error_lines [r])) = [])
      by now destruct r.
    assert (P5 : scene_errors (map Printed (error_lines [r]))
                 = error_lines [r]).
    { destruct r as [c|e]; [reflexivity|].
      unfold scene_errors, error_line. cbn [error_lines map printed filter].
      unfold error_line. now rewrite startswith_app. }
    rewrite !image_outcomes_app, !scene_errors_app, !image_requests_app.
    rewrite Q2, Q3, Q4, P1, P2, P3, P4, P5, Ho, Her.
    split; [reflexivity|]. split.
    { repeat (apply Forall_app; split); try assumption.
      - destruct b; repeat constructor.
      - repeat constructor.
      - destruct r; repeat constructor. }
    split; [now destruct r|]. split.
    { intros F. inversion F as [|? ? Fh Ft]; subst. cbn [fst] in Fh.
      rewrite Fh in Hb. inversion Hb; subst b.
      cbn [image_requests app]. now rewrite (Hup Ft). }
    split.
    { intros F. inversion F as [|? ? Fh Ft]; subst. cbn [fst] in Fh.
      rewrite Fh in Hb. inversion Hb; subst b.
      destruct (Hdn Ft) as [D1 D2].
      cbn [image_requests app]. rewrite D1, D2, (Hdown eq_refl).
      now split. }
    split; [constructor; assumption|]. split.
    { constructor; [|assumption].
      intros clip E. destruct (Hr clip E) as (p & _ & Hp). now exists p. }
    constructor; [|assumption]. exists (description scene), st. exact Hgen.
Qed.

(** A whole run, with all it writes to the log. *)
Lemma create_animation_trace (script output_filename : str)
    (resolution : Z * Z) (fps : Z) (st : state World) :
  exists (st1 : state World) (new : list event) (gens : list (outcome str)),
    let scenes := _parse_script script in
    let steps := steps_of scenes resolution [] st in
    let timeline := completed (map snd steps) in
    let output_path := os_path_join output_dir output_filename in
    List.length steps = List.length scenes
    /\ List.length gens = List.length scenes
    /\ log st1 = log st ++ new
    /\ image_outcomes new = combine (map description scenes) gens
    /\ Forall loop_event new
    /\ scene_errors new = error_lines (map snd steps)
    /\ (Forall (fun step => fst (down (fst step)) = Returned false) steps ->
        image_requests new =
        map (fun scene => prompt_of (description scene)) scenes)
    /\ (Forall (fun step => fst (down (fst step)) = Returned true) steps ->
        image_requests new = []
        /\ gens = map (fun _ => Raised service_unavailable_msg) scenes)
    /\ Forall2 (fun g r => forall e, g = Raised e -> r = Raised e)
               gens (map snd steps)
    /\ Forall2 (fun scene r =>
                  forall clip,
                    r = Returned clip ->
                    exists p, clip = scene_with_text scene p resolution)
               scenes (map snd steps)
    /\ Forall (fun g => exists d st0, g = fst (generate d resolution st0))
              gens
    /\ animate script output_filename resolution fps st =
       if is_nil timeline then (Raised no_scenes_msg, st1)
       else
         match write_videofile timeline output_path fps (world st1) with
         | (Returned _, w2) =>
             (Returned output_path,
              {| world := w2;
                 log := log st1
                        ++ Rendered timeline output_path fps
                           :: map ClipClosed timeline ++ [FinalClosed] |})
         | (Raised e, w2) =>
             (Raised e,
              {| world := w2;
                 log := log st1 ++ [Rendered timeline output_path fps] |})
         end.
Proof.
  destruct (scene_loop_trace resolution (_parse_script script) [] st)
    as (st1 & new & gens & Hrun & Hlen & Hglen & Hl & Ho & Hev & Her
        & Hup & Hdn & Fg & Fs & FG).
  exists st1, new, gens. cbv zeta. repeat (split; [assumption|]).
  unfold create_animation, bind at 1. rewrite Hrun. cbn [app].
  destruct (completed
              (map snd (steps_of (_parse_script script) resolution [] st)))
    as [|clip clips]; cbn [is_nil]; [reflexivity|].
  unfold bind at 1, emit at 1. unfold bind at 1, call at 1. cbn [world log].
  destruct (write_videofile (clip :: clips)
              (os_path_join output_dir output_filename) fps (world st1))
    as [[u|e] w2]; [|reflexivity].
  unfold bind at 1. rewrite close_all_trace.
  unfold bind, emit, ret. cbn [world log].
  now rewrite <- !app_assoc.
Qed.

(** When every call of [generate_scene_image] raised, no turn completed. *)
Lemma completed_all_failed (gens : list (outcome str))
    (results : list (outcome CompositeVideoClip)) :
  Forall2 (fun g r => forall e, g = Raised e -> r = Raised e) gens results ->
  Forall (fun g => failed g = true) gens ->
  completed results = [].
Proof.
  induction 1 as [|g r gens results Hgr _ IH]; intros F; [reflexivity|].
  inversion F as [|? ? Fh Ft]; subst. destruct g as [p|e]; [discriminate|].
  rewrite (Hgr e eq_refl). simpl. now apply IH.
Qed.

(** A whole run from an empty log, read through the log. *)
Lemma create_animation_read (script output_filename : str)
    (resolution : Z * Z) (fps : Z) (w : World) :
  let run := animate script output_filename resolution fps (start w) in
  let scenes := _parse_script script in
  let steps := steps_of scenes resolution [] (start w) in
  let timeline := completed (map snd steps) in
  let output_path := os_path_join output_dir output_filename in
  exists (new : list event) (gens : list (outcome str)),
    List.length steps = List.length scenes
    /\ List.length gens = List.length scenes
    /\ Forall loop_event new
    /\ image_outcomes (log (snd run)) = combine (map description scenes) gens
    /\ scene_errors (log (snd run)) = error_lines (map snd steps)
    /\ (Forall (fun step => fst (down (fst step)) = Returned false) steps ->
        image_requests (log (snd run)) =
        map (fun scene => prompt_of (description scene)) scenes)
    /\ (Forall (fun step => fst (down (fst step)) = Returned true) steps ->
        image_requests (log (snd run)) = []
        /\ gens = map (fun _ => Raised service_unavailable_msg) scenes)
    /\ Forall2 (fun g r => forall e, g = Raised e -> r = Raised e)
               gens (map snd steps)
    /\ Forall2 (fun scene r =>
                  forall clip,
                    r = Returned clip ->
                    exists p, clip = scene_with_text scene p resolution)
               scenes (map snd steps)
    /\ Forall (fun g => exists d st0, g = fst (generate d resolution st0))
              gens
    /\ (timeline = [] ->
        fst run = Raised no_scenes_msg /\ log (snd run) = new)
    /\ (timeline <> [] ->
        (fst run = Returned output_path
         /\ log (snd run) =
            new ++ Rendered timeline output_path fps
            :: map ClipClosed timeline ++ [FinalClosed])
        \/ (exists e w1,
               fst run = Raised e
               /\ fst (write_videofile timeline output_path fps w1) = Raised e
               /\ log (snd run) = new ++ [Rendered timeline output_path fps])).
Proof.
  cbv zeta.
  destruct (create_animation_trace script output_filename resolution fps
              (start w))
    as (st1 & new & gens & Hlen & Hglen & Hl & Ho & Hev & Her & Hup & Hdn
        & Fg & Fs & FG & Hrun).
  cbv zeta in Hrun. simpl in Hl. rewrite Hrun. clear Hrun.
  exists new, gens.
  set (timeline := completed
                     (map snd (steps_of (_parse_script script) resolution []
                                 (start w)))) in *.
  split; [exact Hlen|]. split; [exact Hglen|]. split; [exact Hev|].
  destruct timeline as [|clip clips] eqn:Et; cbn [is_nil].
  - cbn [fst snd]. rewrite Hl.
    split; [exact Ho|]. split; [exact Her|]. split; [exact Hup|].
    split; [exact Hdn|]. split; [exact Fg|]. split; [exact Fs|].
      split; [exact FG|].
    split; [intros _; now split | intros H; now elim H].
  - destruct (write_videofile (clip :: clips)
                (os_path_join output_dir output_filename) fps (world st1))
      as [[u|e] w2] eqn:Ew; cbn [fst snd log]; rewrite Hl.
    + destruct (render_tail_quiet
                  (Rendered (clip :: clips)
                     (os_path_join output_dir output_filename) fps)
                  (clip :: clips)) as (T1 & T2 & T3).
      rewrite image_outcomes_app, scene_errors_app, image_requests_app.
      rewrite T1, T2, T3. simpl image_outcomes. simpl image_requests.
      change (scene_errors [Rendered (clip :: clips)
                              (os_path_join output_dir output_filename) fps])
        with (@nil str).
      rewrite !app_nil_r.
      split; [exact Ho|]. split; [exact Her|]. split; [exact Hup|].
      split; [exact Hdn|]. split; [exact Fg|]. split; [exact Fs|].
      split; [exact FG|].
      split; [discriminate|]. intros _. left. now split.
    + rewrite image_outcomes_app, scene_errors_app, image_requests_app.
      simpl image_outcomes. simpl image_requests.
      change (scene_errors [Rendered (clip :: clips)
                              (os_path_join output_dir output_filename) fps])
        with (@nil str).
      rewrite !app_nil_r.
      split; [exact Ho|]. split; [exact Her|]. split; [exact Hup|].
      split; [exact Hdn|]. split; [exact Fg|]. split; [exact Fs|].
      split; [exact FG|].
      split; [discriminate|]. intros _. right.
      exists e, (world st1). rewrite Ew. now repeat split.
Qed.

(** C5: when every call of [generate_scene_image] of a run failed, the run
    ends with the error [No scenes were successfully generated], after one
    attempt per parsed scene, and nothing was handed to the renderer. *)
Theorem all_scenes_failed_no_render (script output_filename : str)
    (resolution : Z * Z) (fps : Z) (w : World) :
  let run := animate script output_filename resolution fps (start w) in
  Forall (fun a => failed (snd a) = true) (image_outcomes (log (snd run))) ->
  fst run = Raised no_scenes_msg
  /\ rendered (log (snd run)) = []
  /\ map fst (image_outcomes (log (snd run))) =
     map description (_parse_script script).
Proof.
  intros run Hall.
  destruct (create_animation_read script output_filename resolution fps w)
    as (new & gens & _ & Hglen & Hev & Ho & _ & _ & _ & Fg & _ & _ & Hnone
        & _).
  fold run in Ho, Hnone. rewrite Ho in Hall |- *.
  assert (Hl : List.length gens =
               List.length (map description (_parse_script script)))
    by now rewrite length_map.
  assert (Hf : Forall (fun g => failed g = true) gens).
  { rewrite <- (map_snd_combine _ _ Hl). now apply Forall_map. }
  destruct (Hnone (completed_all_failed _ _ Fg Hf)) as [Hr Hn].
  split; [exact Hr|]. split; [|now apply map_fst_combine].
  rewrite Hn. now destruct (loop_events_quiet new Hev).
Qed.

(** C6, as the code has it: a scene reached while the checks report the
    service down is given up before anything is posted, with the service
    error as the failure of that scene alone, and the loop goes on with the
    next scene; when the checks report the service down at every scene of
    a run, the run ends with the error [No scenes were successfully
    generated], nothing posted and nothing handed to the renderer. *)
Theorem service_down_absorbed_per_scene (script output_filename : str)
    (resolution : Z * Z) (fps : Z) (w : World) :
  let run := animate script output_filename resolution fps (start w) in
  let scenes := _parse_script script in
  (forall scene rest clips st,
      fst (down st) = Returned true ->
      exists st' checks,
        fst (generate (description scene) resolution st)
        = Raised service_unavailable_msg
        /\ iteration scene resolution clips st = (Returned clips, st')
        /\ Forall check_event checks
        /\ log st' =
           log st ++ checks
           ++ [Generated (description scene)
                 (Raised service_unavailable_msg);
               Printed (error_line service_unavailable_msg)]
        /\ image_requests (log st') = image_requests (log st)
        /\ loop (scene :: rest) resolution clips st =
           loop rest resolution clips st')
  /\ (Forall (fun step => fst (down (fst step)) = Returned true)
             (steps_of scenes resolution [] (start w)) ->
      image_outcomes (log (snd run)) =
      map (fun scene => (description scene, Raised service_unavailable_msg))
          scenes
      /\ fst run = Raised no_scenes_msg
      /\ image_requests (log (snd run)) = []
      /\ rendered (log (snd run)) = []).
Proof.
  cbv zeta. split.
  - intros scene rest clips st Hdown.
    destruct (scene_iteration_trace scene resolution clips st)
      as (b & checks & g & r & st' & Hb & Hc & _ & Hiter & Hl & Hd & Hg & _).
    rewrite Hdown in Hb. inversion Hb; subst b.
    rewrite (Hd eq_refl) in Hl. specialize (Hg _ (Hd eq_refl)). subst r.
    cbn [completed error_lines map app] in Hl, Hiter.
    rewrite app_nil_r in Hiter.
    destruct (check_events_quiet checks Hc) as (_ & _ & Q3 & _).
    exists st', checks. split.
    { destruct (service_down_trace st) as (b & st1 & c1 & Hs & _ & _).
      rewrite Hs in Hdown. cbn [fst] in Hdown. inversion Hdown; subst b.
      unfold generate_scene_image, bind. now rewrite Hs. }
    split; [exact Hiter|]. split; [exact Hc|]. split; [exact Hl|].
    split.
    { rewrite Hl, !image_requests_app, Q3. simpl. now rewrite app_nil_r. }
    cbn [scene_loop]. unfold bind at 1. now rewrite Hiter.
  - intros Hall.
    destruct (create_animation_read script output_filename resolution fps w)
      as (new & gens & _ & Hglen & Hev & Ho & _ & _ & Hdn & Fg & _ & _
          & Hnone & _).
    destruct (Hdn Hall) as [Hq Hgens].
    assert (Hf : Forall (fun g => failed g = true) gens).
    { rewrite Hgens. clear. induction (_parse_script script); constructor;
        [reflexivity | assumption]. }
    destruct (Hnone (completed_all_failed _ _ Fg Hf)) as [Hr Hn].
    rewrite Ho, Hgens. split.
    { clear. induction (_parse_script script) as [|s l IH];
        [reflexivity | simpl; now rewrite IH]. }
    split; [exact Hr|]. split; [exact Hq|].
    rewrite Hn. now destruct (loop_events_quiet new Hev).
Qed.

(** The renderer is handed, once, the clips of the turns whose [try] body
    returned, in script order: the scene of a turn whose body raised, be it
    in [generate_scene_image] or in a constructor, is left out. *)
Lemma completed_turns_are_rendered (script output_filename : str)
    (resolution : Z * Z) (fps : Z) (w : World) :
  let run := animate script output_filename resolution fps (start w) in
  let scenes := _parse_script script in
  let results := map snd (steps_of scenes resolution [] (start w)) in
  List.length results = List.length scenes
  /\ Forall2 (fun scene r =>
                forall clip,
                  r = Returned clip ->
                  exists p, clip = scene_with_text scene p resolution)
             scenes results
  /\ rendered (log (snd run)) =
     if is_nil (completed results) then []
     else [(completed results,
            os_path_join output_dir output_filename, fps)].
Proof.
  cbv zeta.
  destruct (create_animation_read script output_filename resolution fps w)
    as (new & gens & Hlen & _ & Hev & _ & _ & _ & _ & _ & Fs & _ & Hnone
        & Hsome).
  destruct (loop_events_quiet new Hev) as (R1 & _ & _).
  split; [now rewrite length_map|]. split; [exact Fs|].
  destruct (completed
              (map snd (steps_of (_parse_script script) resolution []
                          (start w)))) as [|clip clips] eqn:Et; cbn [is_nil].
  - destruct (Hnone eq_refl) as [_ Hn]. now rewrite Hn.
  - assert (Q : forall l, rendered (map ClipClosed l ++ [FinalClosed]) = []).
    { clear. induction l; [reflexivity | assumption]. }
    destruct Hsome as [[_ Hl] | (e & w1 & _ & _ & Hl)]; [discriminate| |];
      rewrite Hl, rendered_app, R1.
    + cbn [rendered app]. now rewrite Q.
    + reflexivity.
Qed.

(** Scenes that differ in their characters only make the loop do the
    same. *)
Lemma scene_loop_ignores_characters (resolution : Z * Z)
    (scenes1 scenes2 : list Scene) :
  Forall2 same_timing scenes1 scenes2 ->
  forall clips st,
    loop scenes1 resolution clips st = loop scenes2 resolution clips st.
Proof.
  induction 1 as [|a b scenes1 scenes2 [Hd Ha] _ IH]; intros clips st.
  - reflexivity.
  - assert (Hbody : body a resolution st = body b resolution st).
    { unfold scene_body, bind. rewrite Hd.
      destruct (traced_generate get_summary get_components post_and_save
                  (description b) resolution st) as [[p|e] st1];
        [|reflexivity].
      unfold build_scene_clip, scene_duration. now rewrite Ha. }
    assert (Hiter : iteration a resolution clips st =
                    iteration b resolution clips st).
    { unfold scene_iteration, try_except, bind at 1 3. now rewrite Hbody. }
    cbn [scene_loop]. unfold bind. rewrite Hiter.
    destruct (iteration b resolution clips st) as [[c|e] st1];
      [apply IH | reflexivity].
Qed.

(** X10: a text without a [SCENE:] line that has a description makes the
    run end with [No scenes were successfully generated] at once: nothing
    outside is asked or changed, nothing is printed. *)
Theorem no_scene_no_call (script output_filename : str)
    (resolution : Z * Z) (fps : Z) (st : state World) :
  filter opens_scene (split newline script) = [] ->
  animate script output_filename resolution fps st
  = (Raised no_scenes_msg, st).
Proof.
  intros H. apply parse_lines_nil_iff in H.
  rewrite <- parse_script_lines in H.
  unfold create_animation. now rewrite H.
Qed.

(** X11: the clips and the concatenated video are closed only after the
    renderer returned: a run that returns a path has then closed every
    clip of the timeline once, in order, and the video last; a run that
    raises has closed nothing, also when it is the renderer that raised
    over a timeline of clips. *)
Theorem clips_closed_only_after_render (script output_filename : str)
    (resolution : Z * Z) (fps : Z) (w : World) :
  let run := animate script output_filename resolution fps (start w) in
  let output_path := os_path_join output_dir output_filename in
  (forall p,
      fst run = Returned p ->
      exists before timeline,
        p = output_path
        /\ timeline <> []
        /\ Forall loop_event before
        /\ log (snd run) =
           before ++ Rendered timeline output_path fps
           :: map ClipClosed timeline ++ [FinalClosed])
  /\ (forall e,
         fst run = Raised e ->
         closed (log (snd run)) = []
         /\ final_closed (log (snd run)) = 0%nat
         /\ (e = no_scenes_msg /\ rendered (log (snd run)) = []
             \/ exists before timeline w1,
                  timeline <> []
                  /\ Forall loop_event before
                  /\ log (snd run) =
                     before ++ [Rendered timeline output_path fps]
                  /\ fst (write_videofile timeline output_path fps w1)
                     = Raised e)).
Proof.
  cbv zeta.
  destruct (create_animation_read script output_filename resolution fps w)
    as (new & gens & _ & _ & Hev & _ & _ & _ & _ & _ & _ & _ & Hnone
        & Hsome).
  destruct (loop_events_quiet new Hev) as (R1 & R2 & R3).
  destruct (completed
              (map snd (steps_of (_parse_script script) resolution []
                          (start w)))) as [|clip clips] eqn:Et.
  - destruct (Hnone eq_refl) as [Hr Hl]. rewrite Hr, Hl.
    split; [discriminate|]. intros e He. inversion He.
    split; [exact R2|]. split; [exact R3|]. left. now split.
  - destruct Hsome as [[Hr Hl] | (e' & w1 & Hr & Hw & Hl)];
      [discriminate| |]; rewrite Hr, Hl.
    + split; [|discriminate]. intros p Hp. inversion Hp.
      exists new, (clip :: clips).
      split; [reflexivity|]. split; [discriminate|]. now split.
    + split; [discriminate|]. intros e He. inversion He; subst e'.
      rewrite closed_app, final_closed_app, R2, R3.
      split; [reflexivity|]. split; [reflexivity|]. right.
      exists new, (clip :: clips), w1.
      split; [discriminate|]. now repeat split.
Qed.

(** X12: the path a run returns is the output directory joined with the
    file name: [generated_animations/] followed by the name, unless the
    name starts with [/], in which case it is the name itself, outside the
    output directory. *)
Theorem output_path_of_run (script output_filename : str)
    (resolution : Z * Z) (fps : Z) (st : state World) (p : str) :
  fst (animate script output_filename resolution fps st) = Returned p ->
  (startswith output_filename (lit "/") = false ->
   p = lit "generated_animations/" ++ output_filename)
  /\ (startswith output_filename (lit "/") = true -> p = output_filename).
Proof.
  destruct (create_animation_trace script output_filename resolution fps st)
    as (st1 & new & gens & _ & _ & _ & _ & _ & _ & _ & _ & _ & _ & _
        & Hrun).
  cbv zeta in Hrun. rewrite Hrun.
  destruct (is_nil (completed
                      (map snd (steps_of (_parse_script script) resolution
                                  [] st))));
    [discriminate|].
  destruct (write_videofile _ _ fps (world st1)) as [[u|e] w2];
    [|discriminate].
  cbn [fst]. intros Hp. inversion Hp. unfold os_path_join.
  split; intros H; rewrite H; reflexivity.
Qed.

(** X13: a run prints one line [Error processing scene: ...] per turn of
    the loop whose [try] body raised, be it in [generate_scene_image] or in
    one of the constructors, in scene order, with the message of the
    exception, and no other line that starts so; there is one turn per
    parsed scene. *)
Theorem one_error_line_per_failed_scene (script output_filename : str)
    (resolution : Z * Z) (fps : Z) (w : World) :
  let run := animate script output_filename resolution fps (start w) in
  let steps := steps_of (_parse_script script) resolution [] (start w) in
  List.length steps = List.length (_parse_script script)
  /\ scene_errors (log (snd run)) = error_lines (map snd steps).
Proof.
  cbv zeta.
  destruct (create_animation_read script output_filename resolution fps w)
    as (new & gens & Hlen & _ & _ & _ & Her & _).
  now split.
Qed.

(** X14: a [CHARACTER:] line changes nothing of a run: with the line taken
    out of the text, the run answers the same, leaves the same log and the
    same outside world. *)
Theorem character_lines_do_not_affect_run (script output_filename : str)
    (resolution : Z * Z) (fps : Z) (st : state World)
    (pre : list str) (raw : str) (rest : list str) :
  split newline script = pre ++ raw :: rest ->
  is_character_line raw = true ->
  animate script output_filename resolution fps st =
  animate (join [newline] (pre ++ rest)) output_filename resolution fps st.
Proof.
  intros E H.
  assert (P1 : _parse_script script = parse_lines (pre ++ raw :: rest))
    by now rewrite parse_script_lines, E.
  assert (P2 : _parse_script (join [newline] (pre ++ rest)) =
               parse_lines (pre ++ rest)).
  { apply parse_script_join.
    pose proof (split_no_sep newline script) as Hs. rewrite E in Hs.
    apply Forall_app in Hs. destruct Hs as [Hpre Hrest].
    apply Forall_app. split; [exact Hpre | now inversion Hrest]. }
  unfold create_animation, bind at 1 3. rewrite P1, P2.
  now rewrite (scene_loop_ignores_characters resolution _ _
                 (parse_lines_drop_character pre raw rest H) [] st).
Qed.

(** X15: when the checks report the service up at every scene of a run,
    the run posts exactly one request per parsed scene, in script order,
    each for the description of the scene followed by the fixed style
    words. *)
Theorem one_request_per_scene_when_up (script output_filename : str)
    (resolution : Z * Z) (fps : Z) (w : World) :
  Forall (fun step => fst (down (fst step)) = Returned false)
         (steps_of (_parse_script script) resolution [] (start w)) ->
  image_requests
    (log (snd (animate script output_filename resolution fps (start w)))) =
  map (fun scene => prompt_of (description scene)) (_parse_script script).
Proof.
  intros Hup.
  destruct (create_animation_read script output_filename resolution fps w)
    as (new & gens & _ & _ & _ & _ & _ & Hq & _).
  now apply Hq.
Qed.

End GeneratorFacts.

(** ** The file as it is *)

Section ShippedFacts.

Variable World : Type.
Variable get_summary : World -> outcome status_summary * World.
Variable get_components : World -> outcome (list str) * World.
Variable post_for_image : str -> Z * Z -> World -> fetch_result * World.
Variable open_image_file : World -> outcome str * World.
Variable close_image_file : World -> World.
Variable new_image_clip : str -> World -> outcome unit * World.
Variable new_text_clip : str -> Z * option Z -> World -> outcome unit * World.
Variable new_composite_clip :
  ImageClip -> list TextClip -> Z * Z -> World -> outcome unit * World.
Variable write_videofile :
  list CompositeVideoClip -> str -> Z -> World -> outcome unit * World.

Local Abbreviation shipped :=
  (try_body_as_shipped post_for_image open_image_file close_image_file).

(** With the body of the [try] as the file has it, no call of
    [generate_scene_image] returns. *)
Lemma shipped_generate_never_returns (d : str) (resolution : Z * Z)
    (st : state World) :
  failed (fst (generate_scene_image get_summary get_components shipped
                 d resolution st)) = true.
Proof.
  unfold generate_scene_image, bind at 1.
  destruct (service_down_trace World get_summary get_components st)
    as (b & st1 & checks & Hd & _ & _).
  rewrite Hd. destruct b; [reflexivity|].
  unfold bind, emit, call, ret, raise. cbn [world log].
  unfold try_body_as_shipped.
  destruct (post_for_image _ resolution (world st1)) as [[data|e|e] w1];
    [destruct (open_image_file w1) as [[p|e] w2]| |]; reflexivity.
Qed.

(** So every run ends with [No scenes were successfully generated], after
    one failed attempt per parsed scene, and the renderer is never
    reached. *)
Lemma shipped_run_never_renders (script output_filename : str)
    (resolution : Z * Z) (fps : Z) (w : World) :
  let run :=
    create_animation get_summary get_components shipped
      new_image_clip new_text_clip new_composite_clip write_videofile
      script output_filename resolution fps (start w) in
  fst run = Raised no_scenes_msg
  /\ rendered (log (snd run)) = []
  /\ Forall (fun a => failed (snd a) = true) (image_outcomes (log (snd run)))
  /\ map fst (image_outcomes (log (snd run))) =
     map description (_parse_script script).
Proof.
  cbv zeta.
  destruct (create_animation_read World get_summary get_components shipped
              new_image_clip new_text_clip new_composite_clip write_videofile
              script output_filename resolution fps w)
    as (new & gens & _ & Hglen & Hev & Ho & _ & _ & _ & Fg & _ & FG & Hnone
        & _).
  assert (Hf : Forall (fun g => failed g = true) gens).
  { rewrite Forall_forall in FG |- *. intros g Hin.
    destruct (FG g Hin) as (d & st0 & ->).
    apply shipped_generate_never_returns. }
  destruct (Hnone (completed_all_failed _ _ Fg Hf)) as [Hr Hn].
  assert (Hl : List.length gens =
               List.length (map description (_parse_script script)))
    by now rewrite length_map.
  rewrite Ho. split; [exact Hr|]. split.
  { rewrite Hn. now destruct (loop_events_quiet new Hev). }
  split; [|now apply map_fst_combine].
  rewrite Forall_forall in Hf |- *. intros [d g] Hin. cbn [snd].
  apply Hf. apply in_combine_r in Hin. exact Hin.
Qed.

End ShippedFacts.

(** C7, where the file departs from it: three scenes, the image service
    answers the first and the third request with an image and the second
    with an error.  Each of the three calls of [generate_scene_image]
    raises, the first and the third at line 90 with [NameError]; no clip is
    built, the run ends with [No scenes were successfully generated] and
    the renderer is not reached, where C7 has a timeline of two clips. *)
Theorem shipped_run_builds_no_clip :
  let run :=
    ShippedDemo.run Demo.three_scenes (lit "out.mp4") Demo.second_fails in
  List.length (_parse_script Demo.three_scenes) = 3%nat
  /\ image_requests (log (snd run)) =
     map (fun scene => prompt_of (description scene))
         (_parse_script Demo.three_scenes)
  /\ map snd (image_outcomes (log (snd run))) =
     [ Raised base64_name_error;
       Raised (lit "Image generation failed: 500 Server Error");
       Raised base64_name_error ]
  /\ completed (map snd (ShippedDemo.steps Demo.three_scenes
                           Demo.second_fails)) = []
  /\ fst run = Raised no_scenes_msg
  /\ rendered (log (snd run)) = [].
Proof.
  cbv zeta.
  destruct (shipped_run_never_renders Demo.demo_world Demo.get_summary
              Demo.get_components ShippedDemo.post_for_image
              ShippedDemo.open_image_file ShippedDemo.close_image_file
              Demo.new_image_clip Demo.new_text_clip Demo.new_composite_clip
              Demo.write_videofile Demo.three_scenes (lit "out.mp4")
              (1024, 1024) 24 Demo.second_fails)
    as (Hr & Hn & _ & _).
  split; [vm_compute; reflexivity|].
  split; [vm_compute; reflexivity|].
  split; [vm_compute; reflexivity|].
  split; [vm_compute; reflexivity|].
  split; [exact Hr | exact Hn].
Qed.
(** ** The entry point *)

Section MainFacts.

Variable World : Type.
Variable get_summary : World -> outcome status_summary * World.
Variable get_components : World -> outcome (list str) * World.
Variable post_and_save : str -> Z * Z -> World -> post_result * World.
Variable new_image_clip : str -> World -> outcome unit * World.
Variable new_text_clip : str -> Z * option Z -> World -> outcome unit * World.
Variable new_composite_clip :
  ImageClip -> list TextClip -> Z * Z -> World -> outcome unit * World.
Variable write_videofile :
  list CompositeVideoClip -> str -> Z -> World -> outcome unit * World.
Variable init_generator : World -> outcome unit * World.

Lemma parse_main_script : _parse_script main_script = main_scenes.
Proof. vm_compute. reflexivity. Qed.

Lemma main_output_path :
  os_path_join output_dir (lit "magical_scene.mp4")
  = lit "generated_animations/magical_scene.mp4".
Proof. vm_compute. reflexivity. Qed.

Lemma main_success_line :
  lit "Animation generated successfully: "
  ++ lit "generated_animations/magical_scene.mp4"
  = lit "Animation generated successfully: generated_animations/magical_scene.mp4".
Proof. vm_compute. reflexivity. Qed.

Lemma main_clips_timing :
  Forall (fun scene =>
            forall p,
              ic_duration (cv_scene_clip (scene_with_text scene p (1024, 1024)))
              = 9
              /\ map tc_start
                   (cv_text_clips (scene_with_text scene p (1024, 1024)))
                 = [0; 3; 6]
              /\ cv_size (scene_with_text scene p (1024, 1024)) = (1024, 1024))
         main_scenes.
Proof.
  unfold main_scenes. repeat constructor.
Qed.

Lemma completed_Forall (P : CompositeVideoClip -> Prop) (resolution : Z * Z)
    (scenes : list Scene) (results : list (outcome CompositeVideoClip)) :
  Forall2 (fun scene r =>
             forall clip,
               r = Returned clip ->
               exists p, clip = scene_with_text scene p resolution)
          scenes results ->
  Forall (fun scene => forall p, P (scene_with_text scene p resolution)) scenes ->
  Forall P (completed results)
  /\ (List.length (completed results) <= List.length scenes)%nat.
Proof.
  induction 1 as [|scene r scenes results Hr _ IH]; intros F.
  - split; [constructor | simpl; lia].
  - inversion F as [|? ? Fh Ft]; subst. destruct (IH Ft) as [IF IL].
    destruct r as [clip|e]; cbn [completed].
    + destruct (Hr clip eq_refl) as (p & ->).
      split; [constructor; [apply Fh | exact IF] | simpl; lia].
    + split; [exact IF | simpl; lia].
Qed.

Lemma rendered_closings (l : list CompositeVideoClip) :
  rendered (map ClipClosed l ++ [FinalClosed]) = [].
Proof.
  induction l; [reflexivity | assumption].
Qed.

(** [main] in terms of what [__init__] and [create_animation] answer. *)
Lemma main_run (w : World) :
  main get_summary get_components post_and_save new_image_clip
    new_text_clip new_composite_clip write_videofile init_generator
    (start w) =
  match init_generator w with
  | (Raised e, w1) =>
      (Returned tt,
       {| world := w1;
          log := [Printed (lit "Animation generation failed: " ++ e)] |})
  | (Returned _, w1) =>
      match create_animation get_summary get_components post_and_save
              new_image_clip new_text_clip new_composite_clip
              write_videofile main_script (lit "magical_scene.mp4")
              (1024, 1024) 24 {| world := w1; log := [] |} with
      | (Returned p, st) =>
          (Returned tt,
           {| world := world st;
              log := log st
                     ++ [Printed (lit "Animation generated successfully: "
                                  ++ p)] |})
      | (Raised e, st) =>
          (Returned tt,
           {| world := world st;
              log := log st
                     ++ [Printed (lit "Animation generation failed: "
                                  ++ e)] |})
      end
  end.
Proof.
  unfold main, try_except, bind at 1, call at 1. cbn [world log start].
  destruct (init_generator w) as [[u|e] w1]; [|reflexivity].
  unfold bind at 1.
  destruct (create_animation get_summary get_components post_and_save
              new_image_clip new_text_clip new_composite_clip
              write_videofile main_script (lit "magical_scene.mp4")
              (1024, 1024) 24 {| world := w1; log := [] |}) as [[p|e] st];
    reflexivity.
Qed.

(** X16: [main] never lets an exception out: it ends by printing either
    the success line with the path [generated_animations/magical_scene.mp4]
    or the failure line with the message of what was raised; and what it
    can hand to the renderer is at most the two clips of its script, each
    of nine seconds with overlays starting at 0, 3 and 6, at 24 frames a
    second. *)
Theorem main_never_raises (w : World) :
  let run :=
    main get_summary get_components post_and_save new_image_clip
      new_text_clip new_composite_clip write_videofile init_generator
      (start w) in
  fst run = Returned tt
  /\ (exists before line,
         log (snd run) = before ++ [Printed line]
         /\ (line = lit "Animation generated successfully: generated_animations/magical_scene.mp4"
             \/ exists e, line = lit "Animation generation failed: " ++ e))
  /\ (forall timeline p f,
         In (timeline, p, f) (rendered (log (snd run))) ->
         p = lit "generated_animations/magical_scene.mp4"
         /\ f = 24
         /\ (List.length timeline <= 2)%nat
         /\ Forall (fun clip =>
                      ic_duration (cv_scene_clip clip) = 9
                      /\ map tc_start (cv_text_clips clip) = [0; 3; 6]
                      /\ cv_size clip = (1024, 1024))
                   timeline).
Proof.
  cbv zeta. rewrite main_run.
  destruct (init_generator w) as [[u|e] w1].
  - destruct (create_animation_trace World get_summary get_components
                post_and_save new_image_clip new_text_clip new_composite_clip
                write_videofile main_script (lit "magical_scene.mp4")
                (1024, 1024) 24 {| world := w1; log := [] |})
      as (st1 & new & gens & _ & _ & Hl & _ & Hev & _ & _ & _ & _ & Fs & _
          & Hrun).
    cbv zeta in Hrun. cbn [log app] in Hl. rewrite Hrun. clear Hrun.
    rewrite parse_main_script in Fs |- *. rewrite main_output_path.
    destruct (loop_events_quiet new Hev) as (R1 & _ & _).
    destruct (completed_Forall
                (fun clip =>
                   ic_duration (cv_scene_clip clip) = 9
                   /\ map tc_start (cv_text_clips clip) = [0; 3; 6]
                   /\ cv_size clip = (1024, 1024))
                (1024, 1024) main_scenes _ Fs main_clips_timing) as [TF TL].
    change (List.length main_scenes) with 2%nat in TL.
    destruct (completed _) as [|clip clips]; cbn [is_nil].
    + cbn [fst snd log]. rewrite Hl.
      split; [reflexivity|]. split.
      * eexists _, _. split; [reflexivity|]. right. now eexists.
      * rewrite rendered_app, R1. intros ? ? ? [].
    + destruct (write_videofile (clip :: clips) _ 24 (world st1))
        as [[u'|e] w2]; cbn [fst snd log]; rewrite Hl.
      * split; [reflexivity|]. split.
        -- eexists _, _. split; [reflexivity|]. left.
           apply main_success_line.
        -- rewrite rendered_app, (rendered_app new), R1.
           cbn [rendered app]. rewrite rendered_closings. cbn [app].
           intros timeline p f [H|[]].
           injection H as <- <- <-. now repeat split.
      * split; [reflexivity|]. split.
        -- eexists _, _. split; [reflexivity|]. right. now eexists.
        -- rewrite rendered_app, (rendered_app new), R1.
           cbn [rendered app].
           intros timeline p f [H|[]].
           injection H as <- <- <-. now repeat split.
  - cbn [fst snd log].
    split; [reflexivity|]. split.
    + exists [], (lit "Animation generation failed: " ++ e).
      split; [reflexivity|]. right. now exists e.
    + intros ? ? ? [].
Qed.

End MainFacts.

(** ** The claims on concrete runs *)

Section Instances.

Import Demo.

(** C4 on [three_scenes], cut at its second [SCENE:] line. *)
Lemma parse_script_actions_by_block_witness :
  split newline three_scenes =
  first_block ++ second_marker :: second_body ++ third_block
  /\ _parse_script three_scenes =
     parse_lines first_block ++ block second_marker second_body
     ++ parse_lines third_block
  /\ block second_marker second_body =
     [ {| description := lit "A stone circle";
          characters := [];
          actions := [lit "The wizard steps in"; lit "Guardians appear"] |} ].
Proof.
  split; [reflexivity|]. split; [|reflexivity].
  apply (proj1 (parse_script_actions_by_block three_scenes)
           first_block second_marker second_body third_block).
  - reflexivity.
  - reflexivity.
  - repeat constructor.
  - reflexivity.
Defined.

(** C8 on a script with two lines before its first [SCENE:] line. *)
Lemma parse_script_drops_preamble_witness :
  Forall not_scene_line stray_lines
  /\ _parse_script script_with_stray_lines = parse_lines after_stray_lines
  /\ _parse_script script_with_stray_lines =
     _parse_script (join [newline] after_stray_lines).
Proof.
  split; [repeat constructor|].
  apply (parse_script_drops_preamble script_with_stray_lines
           stray_lines after_stray_lines).
  - reflexivity.
  - repeat constructor.
Defined.

(** C10 on a script with an empty [SCENE:] line between two scenes. *)
Lemma parse_script_empty_scene_body_witness :
  is_scene_line empty_marker = true
  /\ scene_description empty_marker = []
  /\ _parse_script script_with_empty_scene =
     parse_lines before_empty ++ parse_lines after_empty.
Proof.
  split; [reflexivity|]. split; [reflexivity|].
  apply (parse_script_empty_scene_body script_with_empty_scene
           before_empty empty_marker empty_body after_empty).
  - reflexivity.
  - reflexivity.
  - reflexivity.
  - repeat constructor.
Defined.


(** C5 on three scenes whose image requests all fail. *)
Lemma all_scenes_failed_no_render_witness :
  fst (run three_scenes (lit "out.mp4") all_fail) = Raised no_scenes_msg
  /\ rendered (log (snd (run three_scenes (lit "out.mp4") all_fail))) = [].
Proof.
  destruct (all_scenes_failed_no_render demo_world
              get_summary get_components post_and_save
              new_image_clip new_text_clip new_composite_clip write_videofile
              three_scenes (lit "out.mp4") (1024, 1024) 24 all_fail)
    as (Hr & Hn & _).
  - vm_compute. repeat constructor.
  - split; [exact Hr | exact Hn].
Defined.

(** C6, as the code has it: on three scenes with the status page reporting
    an outage at each of the three checks of the run; and on the first of
    three scenes with an outage at the first check only, after which the
    loop goes on with the two other scenes. *)
Lemma service_down_absorbed_per_scene_witness :
  (fst (ShippedDemo.run three_scenes (lit "out.mp4") down_three_times)
   = Raised no_scenes_msg
   /\ image_requests
        (log (snd (ShippedDemo.run three_scenes (lit "out.mp4")
                     down_three_times))) = []
   /\ rendered
        (log (snd (ShippedDemo.run three_scenes (lit "out.mp4")
                     down_three_times))) = [])
  /\ (exists st',
         scene_loop get_summary get_components ShippedDemo.post_and_save
           new_image_clip new_text_clip new_composite_clip
           (_parse_script three_scenes) (1024, 1024) [] (start down_at_first)
         = scene_loop get_summary get_components ShippedDemo.post_and_save
             new_image_clip new_text_clip new_composite_clip
             (tl (_parse_script three_scenes)) (1024, 1024) [] st'
         /\ image_requests (log st') = []).
Proof.
  pose proof (service_down_absorbed_per_scene demo_world
                get_summary get_components ShippedDemo.post_and_save
                new_image_clip new_text_clip new_composite_clip
                write_videofile three_scenes (lit "out.mp4") (1024, 1024) 24
                down_three_times) as [One All].
  split.
  - destruct All as (_ & Hr & Hq & Hn).
    + vm_compute. repeat constructor.
    + split; [exact Hr|]. split; [exact Hq | exact Hn].
  - destruct (_parse_script three_scenes) as [|scene rest] eqn:E;
      [vm_compute in E; discriminate|].
    destruct (One scene rest [] (start down_at_first))
      as (st' & checks & _ & _ & _ & _ & Hq & Hloop).
    + vm_compute. reflexivity.
    + exists st'. split; [exact Hloop | exact Hq].
Defined.

(** C6, as stated, fails: with the status page reporting an outage at every
    check, a run over a script of one scene does not end with the service
    error but with [No scenes were successfully generated]; and with an
    outage at the first check only, the run goes on: it posts the requests
    of the two other scenes, and does not end with the service error
    either. *)
Lemma service_down_is_not_the_outcome :
  (forall st : state demo_world,
      fst (service_down get_summary_outage get_components st) = Returned true)
  /\ fst (run_outage one_scene (lit "out.mp4") quiet_world)
     = Raised no_scenes_msg
  /\ fst (run_outage one_scene (lit "out.mp4") quiet_world)
     <> Raised service_unavailable_msg
  /\ image_requests
       (log (snd (ShippedDemo.run three_scenes (lit "out.mp4")
                    down_at_first)))
     = [ prompt_of (lit "A stone circle");
         prompt_of (lit "A mountain pass") ]
  /\ fst (ShippedDemo.run three_scenes (lit "out.mp4") down_at_first)
     <> Raised service_unavailable_msg.
Proof.
  split; [intros st; reflexivity|].
  split; [vm_compute; reflexivity|].
  split; [vm_compute; discriminate|].
  split; [vm_compute; reflexivity|].
  vm_compute. discriminate.
Qed.

End Instances.

(** ** The further properties on concrete runs *)

Section MoreInstances.

Import Demo DemoMore.

(** X4 on [one_scene] and its indented copy. *)
Lemma parse_script_ignores_indentation_witness :
  one_scene_indented <> one_scene
  /\ _parse_script one_scene_indented = _parse_script one_scene.
Proof.
  split; [discriminate|].
  apply (parse_script_ignores_indentation one_scene_indented one_scene).
  vm_compute. reflexivity.
Defined.

(** X5 on [one_scene] followed by a blank line and a second scene. *)
Lemma parse_script_concat_witness :
  _parse_script (one_scene ++ newline :: second_script) =
  _parse_script one_scene ++ _parse_script second_script
  /\ List.length (_parse_script (one_scene ++ newline :: second_script))
     = 2%nat.
Proof.
  split; [|reflexivity].
  apply (parse_script_concat one_scene second_script
           second_script_blanks second_script_rest).
  - reflexivity.
  - repeat constructor.
  - reflexivity.
Defined.


(** X10 on a text whose only [SCENE:] line has no description. *)
Lemma no_scene_no_call_witness :
  run no_scene_script (lit "out.mp4") all_fail
  = (Raised no_scenes_msg, start all_fail).
Proof.
  apply (no_scene_no_call demo_world get_summary get_components
           post_and_save new_image_clip new_text_clip new_composite_clip
           write_videofile no_scene_script (lit "out.mp4")
           (1024, 1024) 24 (start all_fail)).
  reflexivity.
Defined.

(** X12 on a file name that starts with [/]. *)
Lemma output_path_of_run_witness :
  fst (run one_scene (lit "/tmp/out.mp4") quiet_world)
  = Returned (lit "/tmp/out.mp4")
  /\ ((startswith (lit "/tmp/out.mp4") (lit "/") = false ->
       lit "/tmp/out.mp4" = lit "generated_animations/" ++ lit "/tmp/out.mp4")
      /\ (startswith (lit "/tmp/out.mp4") (lit "/") = true ->
          lit "/tmp/out.mp4" = lit "/tmp/out.mp4")).
Proof.
  split; [reflexivity|].
  apply (output_path_of_run demo_world get_summary get_components
           post_and_save new_image_clip new_text_clip new_composite_clip
           write_videofile one_scene (lit "/tmp/out.mp4")
           (1024, 1024) 24 (start quiet_world) (lit "/tmp/out.mp4")).
  reflexivity.
Defined.

(** X14 on [one_scene] with and without a [CHARACTER:] line. *)
Lemma character_lines_do_not_affect_run_witness :
  _parse_script one_scene_with_cast <> _parse_script one_scene
  /\ run one_scene_with_cast (lit "out.mp4") quiet_world
     = run one_scene (lit "out.mp4") quiet_world.
Proof.
  split; [vm_compute; discriminate|].
  apply (character_lines_do_not_affect_run demo_world get_summary
           get_components post_and_save
           new_image_clip new_text_clip new_composite_clip write_videofile
           one_scene_with_cast (lit "out.mp4") (1024, 1024) 24
           (start quiet_world) before_cast_line cast_line after_cast_line).
  - reflexivity.
  - reflexivity.
Defined.

(** X15 on three scenes with the status page up at each check of the
    run; the image service fails at the second request. *)
Lemma one_request_per_scene_when_up_witness :
  image_requests
    (log (snd (ShippedDemo.run three_scenes (lit "out.mp4") second_fails)))
  = map (fun scene => prompt_of (description scene))
        (_parse_script three_scenes)
  /\ List.length
       (image_requests
          (log (snd (ShippedDemo.run three_scenes (lit "out.mp4")
                       second_fails))))
     = 3%nat.
Proof.
  split; [|vm_compute; reflexivity].
  apply (one_request_per_scene_when_up demo_world get_summary
           get_components ShippedDemo.post_and_save
           new_image_clip new_text_clip new_composite_clip write_videofile
           three_scenes (lit "out.mp4") (1024, 1024) 24 second_fails).
  vm_compute. repeat constructor.
Defined.

End MoreInstances.
